(** * Signaling server (src/server.js): rooms, join/leave, relay, heartbeat

    A shallow embedding of the WebSocket signaling server.  The room table
    [rooms] (a JS [Map] from room name to a [Map] from participant id to
    socket) is a [gmap] whose values are insertion-ordered association
    lists, because the inner map is iterated ([forEach], [keys().find]) and
    JS maps iterate in insertion order.  A socket object is named by a
    natural number; its fields [readyState] and [isAlive] and the three
    variables of its connection closure live in a socket table.  Every call
    of [ws.send], [ws.ping] and [ws.terminate] is appended to a log.

    Room names and participant ids are strings, as the protocol documents
    them; the handshake payloads are arbitrary JSON values. *)

From Stdlib Require Import ZArith NArith.
From stdpp Require Import gmap strings list fin_maps.

Open Scope string_scope.
Open Scope list_scope.
Open Scope nat_scope.

(** ** Values *)

Set Warnings "-register-all".

(** A parsed JSON value.  Numbers are kept to the integers: the server only
    ever asks whether a payload is falsy, and among numbers only zero is. *)
Inductive json : Type :=
| JNull
| JBool (b : bool)
| JNum (n : Z)
| JStr (s : string)
| JArr (items : list json)
| JObj (fields : list (string * json)).

(** A field read off the parsed message: [None] is JS [undefined]. *)
Definition truthy (v : option json) : bool :=
  match v with
  | None => false
  | Some JNull => false
  | Some (JBool b) => b
  | Some (JNum n) => negb (n =? 0)%Z
  | Some (JStr s) => negb (String.eqb s "")
  | Some (JArr _) => true
  | Some (JObj _) => true
  end.

(** Truthiness of a string: only the empty string is falsy. *)
Definition str_truthy (s : string) : bool := negb (String.eqb s "").

(** The identity of a socket object ([ws]). *)
Abbreviation conn := nat (only parsing).

Inductive ready_state : Type := CONNECTING | OPEN | CLOSING | CLOSED.

(** The fields of an inbound message that the server reads.  [m_type] is
    [None] when the field is absent or not a string. *)
Record message : Type := Message {
  m_type : option string;
  m_room : option string;
  m_id : option string;
  m_offer : option json;
  m_answer : option json;
  m_candidate : option json;
  m_targetId : option json
}.

(** The objects handed to [JSON.stringify] before [ws.send]. *)
Inductive out_message : Type :=
| MError (message : string)
| MJoined (room id : string) (participants : nat)
| MPeerJoined (peerId : string) (shouldCreateOffer : bool)
| MOffer (offer : json) (from : option string)
| MAnswer (answer : json) (from : option string)
| MIceCandidate (candidate : json) (from : option string)
| MPeerLeft (peerId : string).

(** Calls made on socket objects. *)
Inductive effect : Type :=
| Send (to : conn) (m : out_message)
| Ping (c : conn)
| Terminate (c : conn).

(** ** The inner map: participant id -> socket, in insertion order *)

Abbreviation participants := (list (string * conn)) (only parsing).

Fixpoint pm_has (id : string) (ps : participants) : bool :=
  match ps with
  | [] => false
  | (k, _) :: rest => if String.eqb k id then true else pm_has id rest
  end.

Fixpoint pm_get (id : string) (ps : participants) : option conn :=
  match ps with
  | [] => None
  | (k, w) :: rest => if String.eqb k id then Some w else pm_get id rest
  end.

(** [Map.prototype.set]: an existing key keeps its place, a new one goes
    last. *)
Fixpoint pm_set (id : string) (w : conn) (ps : participants) : participants :=
  match ps with
  | [] => [(id, w)]
  | (k, v) :: rest =>
      if String.eqb k id then (k, w) :: rest else (k, v) :: pm_set id w rest
  end.

Fixpoint pm_delete (id : string) (ps : participants) : participants :=
  match ps with
  | [] => []
  | (k, v) :: rest =>
      if String.eqb k id then rest else (k, v) :: pm_delete id rest
  end.

Definition pm_size (ps : participants) : nat := length ps.

Definition pm_keys (ps : participants) : list string := map fst ps.

(** [Array.prototype.find] with the predicate [otherId !== id]. *)
Fixpoint find_other (id : string) (keys : list string) : option string :=
  match keys with
  | [] => None
  | k :: rest => if String.eqb k id then find_other id rest else Some k
  end.

(** ** The closure variables of one connection *)

Record session : Type := Session {
  currentRoom : option string;
  clientId : option string;
  isAuthenticated : bool
}.

Definition fresh_session : session := Session None None false.

(** What a handler can touch: its own closure variables, the room table and
    the sockets it sends on. *)
Record ctx : Type := Ctx {
  vars : session;
  rooms : gmap string (list (string * nat));
  wire : list effect
}.

Definition set_vars (v : session) (k : ctx) : ctx := Ctx v (rooms k) (wire k).

Definition set_rooms (r : gmap string (list (string * nat))) (k : ctx) : ctx :=
  Ctx (vars k) r (wire k).

Definition send (to : conn) (m : out_message) (k : ctx) : ctx :=
  Ctx (vars k) (rooms k) (wire k ++ [Send to m]).

(** [getRoomSize] *)
Definition getRoomSize (rs : gmap string (list (string * nat))) (roomName : string) : nat :=
  match rs !! roomName with
  | Some ps => pm_size ps
  | None => 0
  end.

(** ** The connection handler *)

Section Connection.

(** [readyState] of every socket, as the handlers read it. *)
Variable readyState : conn -> ready_state.

Definition is_open (w : conn) : bool :=
  match readyState w with OPEN => true | _ => false end.

(** The body of [participants.forEach] in [broadcastToRoom]. *)
Fixpoint forEach_send (ps : participants) (m : out_message)
         (excludeId : option string) (k : ctx) : ctx :=
  match ps with
  | [] => k
  | (id, w) :: rest =>
      forEach_send rest m excludeId
        (if bool_decide (Some id ≠ excludeId) && is_open w
         then send w m k else k)
  end.

Definition broadcastToRoom (roomName : string) (m : out_message)
           (excludeId : option string) (k : ctx) : ctx :=
  match rooms k !! roomName with
  | None => k
  | Some ps => forEach_send ps m excludeId k
  end.

Definition sendToClient (roomName : string) (id : string) (m : out_message)
           (k : ctx) : ctx :=
  match rooms k !! roomName with
  | None => k
  | Some ps =>
      match pm_get id ps with
      | Some w => if is_open w then send w m k else k
      | None => k
      end
  end.

(** The socket of this connection. *)
Variable ws : conn.

Definition handleLeave (k : ctx) : ctx :=
  match currentRoom (vars k), clientId (vars k) with
  | Some room, Some id =>
      if negb (str_truthy room) || negb (str_truthy id) then k
      else
        let k1 :=
          match rooms k !! room with
          | Some ps =>
              let k' := broadcastToRoom room (MPeerLeft id) (Some id) k in
              let ps' := pm_delete id ps in
              if pm_size ps' =? 0
              then set_rooms (delete room (rooms k')) k'
              else set_rooms (<[room := ps']> (rooms k')) k'
          | None => k
          end in
        set_vars fresh_session k1
  | _, _ => k
  end.

Definition handleJoin (m : message) (k : ctx) : ctx :=
  match m_room m, m_id m with
  | Some room, Some id =>
      if negb (str_truthy room) || negb (str_truthy id)
      then send ws (MError "Room name and ID are required") k
      else
        (* Clean up if already in a room *)
        let k1 :=
          match currentRoom (vars k) with
          | Some cur =>
              if str_truthy cur && bool_decide (cur ≠ room)
              then handleLeave k else k
          | None => k
          end in
        (* Create room if doesn't exist *)
        let k2 :=
          match rooms k1 !! room with
          | Some _ => k1
          | None => set_rooms (<[room := []]> (rooms k1)) k1
          end in
        let ps := default [] (rooms k2 !! room) in
        (* Check room capacity (max 2 participants) *)
        if (2 <=? pm_size ps) && negb (pm_has id ps)
        then send ws (MError "Room is full. Maximum 2 participants allowed.") k2
        else
          (* Handle reconnection / new participant *)
          let ps' :=
            if pm_has id ps then pm_set id ws ps else pm_set id ws ps in
          let k3 := set_rooms (<[room := ps']> (rooms k2)) k2 in
          let k4 := set_vars (Session (Some room) (Some id) true) k3 in
          let k5 := send ws (MJoined room id (pm_size ps')) k4 in
          if pm_size ps' =? 2 then
            match find_other id (pm_keys ps') with
            | Some other =>
                if str_truthy other then
                  send ws (MPeerJoined other false)
                    (sendToClient room other (MPeerJoined id true) k5)
                else k5
            | None => k5
            end
          else k5
  | _, _ => send ws (MError "Room name and ID are required") k
  end.

Definition handleOffer (m : message) (k : ctx) : ctx :=
  match currentRoom (vars k) with
  | Some room =>
      if negb (isAuthenticated (vars k)) || negb (str_truthy room) then k
      else
        let offer := m_offer m in
        let targetId := m_targetId m in
        match offer with
        | Some body =>
            if negb (truthy offer) then k
            else
              (* Forward offer to other participant(s) *)
              broadcastToRoom room (MOffer body (clientId (vars k)))
                (clientId (vars k)) k
        | None => k
        end
  | None => k
  end.

Definition handleAnswer (m : message) (k : ctx) : ctx :=
  match currentRoom (vars k) with
  | Some room =>
      if negb (isAuthenticated (vars k)) || negb (str_truthy room) then k
      else
        let answer := m_answer m in
        match answer with
        | Some body =>
            if negb (truthy answer) then k
            else
              (* Forward answer to other participant(s) *)
              broadcastToRoom room (MAnswer body (clientId (vars k)))
                (clientId (vars k)) k
        | None => k
        end
  | None => k
  end.

Definition handleIceCandidate (m : message) (k : ctx) : ctx :=
  match currentRoom (vars k) with
  | Some room =>
      if negb (isAuthenticated (vars k)) || negb (str_truthy room) then k
      else
        let candidate := m_candidate m in
        match candidate with
        | Some body =>
            if negb (truthy candidate) then k
            else
              (* Forward ICE candidate to other participant(s) *)
              broadcastToRoom room (MIceCandidate body (clientId (vars k)))
                (clientId (vars k)) k
        | None => k
        end
  | None => k
  end.

(** [ws.on('message')]: [None] is a frame that [JSON.parse] rejects (or
    parses to [null], whose [type] cannot be read). *)
Definition on_message (data : option message) (k : ctx) : ctx :=
  match data with
  | None => send ws (MError "Invalid message format") k
  | Some m =>
      match m_type m with
      | Some t =>
          if String.eqb t "join" then handleJoin m k
          else if String.eqb t "offer" then handleOffer m k
          else if String.eqb t "answer" then handleAnswer m k
          else if String.eqb t "ice-candidate" then handleIceCandidate m k
          else if String.eqb t "leave" then handleLeave k
          else k
      | None => k
      end
  end.

(** [ws.on('close')] and [ws.on('error')] *)
Definition on_close (k : ctx) : ctx := handleLeave k.
Definition on_error (k : ctx) : ctx := handleLeave k.

End Connection.

(** ** The server: room table, socket objects, tracked clients *)

(** A socket object: the two fields the server reads and writes, and the
    variables captured by its connection closure. *)
Record socket : Type := Socket {
  sk_readyState : ready_state;
  sk_isAlive : bool;
  sk_closure : session
}.

Record server : Type := Server {
  table : gmap string (list (string * nat));
  sockets : gmap nat socket;
  clients : list nat;
  log : list effect
}.

Definition init_server : server := Server ∅ ∅ [] [].

Definition ready_of (s : server) (c : conn) : ready_state :=
  match sockets s !! c with
  | Some sk => sk_readyState sk
  | None => CLOSED
  end.

Definition closure_of (s : server) (c : conn) : session :=
  match sockets s !! c with
  | Some sk => sk_closure sk
  | None => fresh_session
  end.

Definition tracked (s : server) (c : conn) : bool := bool_decide (c ∈ clients s).

(** Run one callback of connection [c] against the shared state. *)
Definition run_handler (c : conn)
           (h : (conn -> ready_state) -> conn -> ctx -> ctx) (s : server) : server :=
  match sockets s !! c with
  | None => s
  | Some sk =>
      let k := h (ready_of s) c (Ctx (sk_closure sk) (table s) (log s)) in
      Server (rooms k)
             (<[c := Socket (sk_readyState sk) (sk_isAlive sk) (vars k)]> (sockets s))
             (clients s) (wire k)
  end.

Definition update_socket (c : conn) (f : socket -> socket) (s : server) : server :=
  Server (table s) (alter f c (sockets s)) (clients s) (log s).

Definition set_ready (r : ready_state) (sk : socket) : socket :=
  Socket r (sk_isAlive sk) (sk_closure sk).

Definition set_alive (b : bool) (sk : socket) : socket :=
  Socket (sk_readyState sk) b (sk_closure sk).

(** [ws.terminate()]: a socket that is not yet closed starts closing. *)
Definition terminate (sk : socket) : socket :=
  match sk_readyState sk with
  | CLOSED => sk
  | _ => set_ready CLOSING sk
  end.

(** The body of [wss.clients.forEach] in the heartbeat. *)
Definition heartbeat_one (s : server) (c : conn) : server :=
  match sockets s !! c with
  | None => s
  | Some sk =>
      if negb (sk_isAlive sk)
      then Server (table s) (<[c := terminate sk]> (sockets s)) (clients s)
                  (log s ++ [Terminate c])
      else Server (table s) (<[c := set_alive false sk]> (sockets s)) (clients s)
                  (log s ++ [Ping c])
  end.

Definition heartbeat (s : server) : server :=
  foldl heartbeat_one s (clients s).

(** What the event loop can deliver.  The transport is the [ws] package;
    the model takes from it only this much: a socket is OPEN with
    [isAlive = true] when its connection callback runs; its [readyState]
    can leave OPEN some time before its close callback runs ([Closing]);
    when the close callback runs the socket is CLOSED and no longer in
    [wss.clients]; no callback of a socket runs after that. *)
Inductive event : Type :=
| Connect (c : conn)                          (* wss 'connection' *)
| Incoming (c : conn) (data : option message) (* ws 'message' *)
| Pong (c : conn)                             (* ws 'pong' *)
| Closing (c : conn)                          (* the transport starts closing *)
| Failed (c : conn)                           (* ws 'error' *)
| Closed (c : conn)                           (* ws 'close' *)
| Tick.                                       (* the heartbeat interval fires *)

Definition untrack (c : conn) (s : server) : server :=
  Server (table s) (sockets s) (filter (λ x, x ≠ c) (clients s)) (log s).

Definition step (s : server) (e : event) : server :=
  match e with
  | Connect c =>
      match sockets s !! c with
      | Some _ => s
      | None =>
          Server (table s) (<[c := Socket OPEN true fresh_session]> (sockets s))
                 (clients s ++ [c]) (log s)
      end
  | Incoming c data =>
      if tracked s c
      then run_handler c (λ rs w, on_message rs w data) s else s
  | Pong c =>
      if tracked s c then update_socket c (set_alive true) s else s
  | Closing c =>
      if tracked s c then update_socket c (set_ready CLOSING) s else s
  | Failed c =>
      if tracked s c then run_handler c (λ rs _, on_error rs) s else s
  | Closed c =>
      if tracked s c
      then run_handler c (λ rs _, on_close rs) (untrack c (update_socket c (set_ready CLOSED) s))
      else s
  | Tick => heartbeat s
  end.

Definition run (s : server) (evs : list event) : server := foldl step s evs.

(** Shorthands for the messages clients send. *)
Definition join (room id : string) : message :=
  Message (Some "join") (Some room) (Some id) None None None None.

Definition leave : message :=
  Message (Some "leave") None None None None None None.

Definition offer (body : json) (target : option json) : message :=
  Message (Some "offer") None None (Some body) None None target.

Definition answer (body : json) : message :=
  Message (Some "answer") None None None (Some body) None None.

Definition ice_candidate (body : json) : message :=
  Message (Some "ice-candidate") None None None None (Some body) None.

(** ** Vocabulary of the properties *)

(** The sockets [broadcastToRoom] sends on, in order: every entry other than
    [excludeId] whose socket is open. *)
Fixpoint recipients (readyState : conn -> ready_state) (excludeId : option string)
         (ps : participants) : list conn :=
  match ps with
  | [] => []
  | (id, w) :: rest =>
      if bool_decide (Some id ≠ excludeId) && is_open readyState w
      then w :: recipients readyState excludeId rest
      else recipients readyState excludeId rest
  end.

(** A room as the table should hold it: a non-empty name, ids that are
    distinct and non-empty, and one or two participants. *)
Definition room_ok (name : string) (ps : participants) : Prop :=
  name ≠ "" ∧ NoDup (pm_keys ps) ∧ Forall (λ id, id ≠ "") (pm_keys ps) ∧
  1 ≤ pm_size ps ≤ 2.

Definition registry_ok (rs : gmap string (list (string * nat))) : Prop :=
  map_Forall room_ok rs.

(** The closure variables move together: all three cleared, or all three
    set. *)
Definition session_ok (v : session) : Prop :=
  v = fresh_session ∨
  ∃ room id, room ≠ "" ∧ id ≠ "" ∧ v = Session (Some room) (Some id) true.

Definition server_ok (s : server) : Prop :=
  registry_ok (table s) ∧
  (∀ c sk, sockets s !! c = Some sk → session_ok (sk_closure sk)) ∧
  (∀ c, c ∈ clients s → is_Some (sockets s !! c)).

(** The state [handleJoin] continues from once its clean-up step has run:
    the old room is left when there is one and it is not the target. *)
Definition after_cleanup (readyState : conn -> ready_state) (room : string)
           (k : ctx) : ctx :=
  match currentRoom (vars k) with
  | Some cur =>
      if str_truthy cur && bool_decide (cur ≠ room)
      then handleLeave readyState k else k
  | None => k
  end.

(** The two notifications of a room that has just reached two entries. *)
Definition notify_pair (readyState : conn -> ready_state) (ws : conn)
           (room id : string) (ps : participants) (k : ctx) : ctx :=
  if pm_size ps =? 2 then
    match find_other id (pm_keys ps) with
    | Some other =>
        if str_truthy other then
          send ws (MPeerJoined other false)
            (sendToClient readyState room other (MPeerJoined id true) k)
        else k
    | None => k
    end
  else k.


(** The same message with its [targetId] field replaced. *)
Definition with_targetId (t : option json) (m : message) : message :=
  Message (m_type m) (m_room m) (m_id m) (m_offer m) (m_answer m)
          (m_candidate m) t.

(** *** Scenarios *)

(** The text of the capacity error. *)
Definition room_full : out_message :=
  MError "Room is full. Maximum 2 participants allowed.".

(** alice and bob, on sockets 0 and 1, paired in room1. *)
Definition paired : list event :=
  [Connect 0; Incoming 0 (Some (join "room1" "alice"));
   Connect 1; Incoming 1 (Some (join "room1" "bob"))].

(** A third connection that sits in a room of its own. *)
Definition paired_and_lobby : list event :=
  paired ++ [Connect 2; Incoming 2 (Some (join "lobby" "zed"))].

(** alice's transport has started closing when bob connects. *)
Definition alice_closing : list event :=
  [Connect 0; Incoming 0 (Some (join "room1" "alice")); Closing 0; Connect 1].

(** bob's transport has started closing while alice is still negotiating. *)
Definition bob_closing : list event := paired ++ [Closing 1].

(** An SDP description, as browsers produce it. *)
Definition sdp (kind body : string) : json :=
  JObj [("type", JStr kind); ("sdp", JStr body)].

(** A reconnect under alice's id by a second socket, which then leaves;
    two strangers take the room; socket 0 still believes it is alice in
    room1. *)
Definition stale_alice : list event :=
  [Connect 0; Incoming 0 (Some (join "room1" "alice"));
   Connect 1; Incoming 1 (Some (join "room1" "alice"));
   Incoming 1 (Some leave);
   Connect 2; Incoming 2 (Some (join "room1" "carol"));
   Connect 3; Incoming 3 (Some (join "room1" "dave"))].

(** An event that neither acknowledges a probe of [c] nor reports [c]
    closed. *)
Definition quiet (c : conn) (e : event) : Prop := e ≠ Pong c ∧ e ≠ Closed c.

(** [c] is tracked and its liveness flag is down. *)
Definition flagged (c : conn) (s : server) : Prop :=
  c ∈ clients s ∧ ∃ sk, sockets s !! c = Some sk ∧ sk_isAlive sk = false.

(** [c] has its flag down and has been terminated. *)
Definition reaped (c : conn) (s : server) : Prop :=
  ∃ sk, sockets s !! c = Some sk ∧ sk_isAlive sk = false ∧
        sk_readyState sk ≠ OPEN.

(** Socket 0 joins room1 as alice and then, on the same connection, as
    bob. *)
Definition joined_twice : list event :=
  [Connect 0; Incoming 0 (Some (join "room1" "alice"));
   Incoming 0 (Some (join "room1" "bob"))].

(** ... and then falls silent: two heartbeats reap it and its close event
    is handled. *)
Definition ghost_alice : list event := joined_twice ++ [Tick; Tick; Closed 0].

(** The shape the three relay handlers share: the guard
    [!isAuthenticated || !currentRoom], the test of the payload field, the
    broadcast that excludes the sender's id. *)
Definition relay (readyState : conn -> ready_state) (field : option json)
           (mk : json -> option string -> out_message) (k : ctx) : ctx :=
  match currentRoom (vars k) with
  | Some room =>
      if negb (isAuthenticated (vars k)) || negb (str_truthy room) then k
      else
        match field with
        | Some body =>
            if negb (truthy field) then k
            else broadcastToRoom readyState room (mk body (clientId (vars k)))
                   (clientId (vars k)) k
        | None => k
        end
  | None => k
  end.

(** Every entry of [l] is a send, and every send goes either to the socket
    [ws] of the connection being served or to a socket that is OPEN. *)
Definition polite (readyState : conn -> ready_state) (ws : conn)
           (l : list effect) : Prop :=
  Forall (λ e, ∃ w m, e = Send w m ∧ (w = ws ∨ is_open readyState w = true)) l.


(** A socket that is no longer tracked is CLOSED and its closure holds no
    session. *)
Definition closed_are_cleared (s : server) : Prop :=
  ∀ c sk, sockets s !! c = Some sk → c ∉ clients s →
          sk_readyState sk = CLOSED ∧ sk_closure sk = fresh_session.

(** [wss.clients] is a set. *)
Definition clients_ok (s : server) : Prop :=
  NoDup (clients s) ∧ ∀ c, c ∈ clients s → is_Some (sockets s !! c).

(** [k'] is [k] with a polite list of sends appended to its log. *)
Definition answers (readyState : conn -> ready_state) (ws : conn)
           (k k' : ctx) : Prop :=
  ∃ l, wire k' = wire k ++ l ∧ polite readyState ws l.

(** Socket [w] is stored somewhere in the room table [t]. *)
Definition refers (t : gmap string (list (string * nat))) (w : conn) : Prop :=
  ∃ room (ps : participants) id, t !! room = Some ps ∧ (id, w) ∈ ps.

(** What one firing of the heartbeat does to the tracked client [c], as
    decided by the liveness flag [c] has when the firing starts. *)
Definition probe (s : server) (c : conn) : effect :=
  match sockets s !! c with
  | Some sk => if sk_isAlive sk then Ping c else Terminate c
  | None => Terminate c
  end.

(** An event that is neither a heartbeat nor the close of [c]. *)
Definition calm (c : conn) (e : event) : Prop := e ≠ Tick ∧ e ≠ Closed c.

(** The payload field a relay handler reads, by message type. *)
Inductive relay_kind : Type := KOffer | KAnswer | KIceCandidate.

Definition relay_field (kd : relay_kind) (m : message) : option json :=
  match kd with
  | KOffer => m_offer m
  | KAnswer => m_answer m
  | KIceCandidate => m_candidate m
  end.

Definition relay_out (kd : relay_kind) : json -> option string -> out_message :=
  match kd with
  | KOffer => MOffer
  | KAnswer => MAnswer
  | KIceCandidate => MIceCandidate
  end.

Definition relay_type (kd : relay_kind) : string :=
  match kd with
  | KOffer => "offer"
  | KAnswer => "answer"
  | KIceCandidate => "ice-candidate"
  end.

Definition relay_handler (kd : relay_kind) (readyState : conn -> ready_state)
           (m : message) (k : ctx) : ctx :=
  match kd with
  | KOffer => handleOffer readyState m k
  | KAnswer => handleAnswer readyState m k
  | KIceCandidate => handleIceCandidate readyState m k
  end.

(** * Part II: the handlers over arbitrary JSON values

    Part I follows the protocol's own domain, where room names and
    participant ids are strings.  The code itself tests its inputs for
    truthiness only, so a room, an id or a type can be any JSON value.
    This part embeds the same functions over all of them: numbers are IEEE
    doubles, an object or array is a [Map] key by identity, and a log
    statement whose template literal cannot convert a value to a string
    throws; the message callback catches the exception and replies, the
    close and error callbacks do not. *)

Module Js.

(** ** Numbers: IEEE-754 binary64, by bit pattern *)

Definition number : Type :=
  { bits : N | (bits <? 18446744073709551616)%N = true }.

#[global] Instance number_eq_dec : EqDecision number :=
  sig_eq_dec (λ bits : N, (bits <? 18446744073709551616)%N = true).

#[global] Instance number_countable : Countable number :=
  sig_countable (λ bits : N, (bits <? 18446744073709551616)%N = true).

Definition bits (n : number) : N := proj1_sig n.

(** The biased exponent (11 bits) and the fraction (52 bits). *)
Definition exponent (n : number) : N :=
  ((bits n / 4503599627370496) mod 2048)%N.

Definition fraction (n : number) : N := (bits n mod 4503599627370496)%N.

Definition is_nan (n : number) : bool :=
  (exponent n =? 2047)%N && negb (fraction n =? 0)%N.

Definition is_finite (n : number) : bool := negb (exponent n =? 2047)%N.

(** +0 or -0: everything but the sign bit is clear. *)
Definition is_zero (n : number) : bool :=
  (bits n mod 9223372036854775808 =? 0)%N.

Definition plus_zero : number := exist _ 0%N eq_refl.
Definition minus_zero : number := exist _ 9223372036854775808%N eq_refl.
Definition quiet_nan : number := exist _ 9221120237041090560%N eq_refl.
Definition one : number := exist _ 4607182418800017408%N eq_refl.
Definition two : number := exist _ 4611686018427387904%N eq_refl.
Definition infinity : number := exist _ 9218868437227405312%N eq_refl.

(** The representative of a number as a [Map] key (SameValueZero): the two
    zeros are one key, and so are all NaNs. *)
Definition canon (n : number) : number :=
  if is_zero n then plus_zero else if is_nan n then quiet_nan else n.

(** ** Values *)

(** The result of [JSON.parse], as a tree.  The fields of an object are its
    own properties in enumeration order. *)
Inductive json : Type :=
| JNull
| JBool (b : bool)
| JNum (n : number)
| JStr (s : string)
| JArr (items : list json)
| JObj (fields : list (string * json)).

Definition truthy (j : json) : bool :=
  match j with
  | JNull => false
  | JBool b => b
  | JNum n => negb (is_zero n || is_nan n)
  | JStr s => negb (String.eqb s "")
  | JArr _ => true
  | JObj _ => true
  end.

(** A field that may be absent ([undefined]). *)
Definition truthy_field (v : option json) : bool :=
  match v with
  | Some j => truthy j
  | None => false
  end.

(** Whether the conversion to a string that a template literal performs
    returns.  An object from [JSON.parse] with an own property [toString]
    has no callable [toString] and its inherited [valueOf] returns the
    object, so the conversion throws a TypeError; an array is joined, which
    converts every element that is not null. *)
Fixpoint prints (j : json) : bool :=
  match j with
  | JArr items =>
      forallb (λ x, match x with JNull => true | _ => prints x end) items
  | JObj fields => negb (existsb (λ f, String.eqb (fst f) "toString") fields)
  | _ => true
  end.


(** A value a handler holds: the tree, and for an object or array the
    address that makes it this object and no other. *)
Record jsval : Type := JsVal { shape : json; addr : nat }.

(** [Map] keys, up to SameValueZero. *)
Inductive key : Type :=
| KNull
| KBool (b : bool)
| KNum (n : number)
| KStr (s : string)
| KObj (a : nat).

#[global] Instance key_eq_dec : EqDecision key.
Proof. solve_decision. Defined.

Definition key_enc (k : key) : unit + bool + number + string + nat :=
  match k with
  | KNull => inl (inl (inl (inl tt)))
  | KBool b => inl (inl (inl (inr b)))
  | KNum n => inl (inl (inr n))
  | KStr s => inl (inr s)
  | KObj a => inr a
  end.

Definition key_dec (x : unit + bool + number + string + nat) : key :=
  match x with
  | inl (inl (inl (inl _))) => KNull
  | inl (inl (inl (inr b))) => KBool b
  | inl (inl (inr n)) => KNum n
  | inl (inr s) => KStr s
  | inr a => KObj a
  end.

#[global] Instance key_countable : Countable key.
Proof. apply (inj_countable' key_enc key_dec). by intros []. Defined.

Definition key_of (v : jsval) : key :=
  match shape v with
  | JNull => KNull
  | JBool b => KBool b
  | JNum n => KNum (canon n)
  | JStr s => KStr s
  | JArr _ => KObj (addr v)
  | JObj _ => KObj (addr v)
  end.

(** [a === b]: as SameValueZero, except that NaN equals nothing. *)
Definition strict_eq (a b : jsval) : bool :=
  bool_decide (key_of a = key_of b) &&
  negb (match shape a with JNum n => is_nan n | _ => false end).

(** [a === b] where [b] may be null. *)
Definition strict_eq_opt (a : jsval) (b : option jsval) : bool :=
  match b with
  | Some v => strict_eq a v
  | None => match shape a with JNull => true | _ => false end
  end.

Definition prints_val (v : option jsval) : bool :=
  match v with
  | Some x => prints (shape x)
  | None => true
  end.

(** ** Messages *)

(** A parsed frame: the fields the server reads, each absent or a tree. *)
Record frame : Type := Frame {
  f_type : option json;
  f_room : option json;
  f_id : option json;
  f_offer : option json;
  f_answer : option json;
  f_candidate : option json;
  f_targetId : option json
}.

(** The frame as a handler holds it: [room] and [id] are values with an
    address. *)
Record message : Type := Message {
  m_type : option json;
  m_room : option jsval;
  m_id : option jsval;
  m_offer : option json;
  m_answer : option json;
  m_candidate : option json;
  m_targetId : option json
}.

(** The [n]-th frame parsed by the process: its [room] and [id], where
    they are objects, are fresh ones. *)
Definition read (n : nat) (f : frame) : message :=
  Message (f_type f)
          (option_map (λ j, JsVal j (2 * n)) (f_room f))
          (option_map (λ j, JsVal j (2 * n + 1)) (f_id f))
          (f_offer f) (f_answer f) (f_candidate f) (f_targetId f).

(** The objects handed to [JSON.stringify] before [ws.send]. *)
Inductive out_message : Type :=
| MError (message : string)
| MJoined (room id : json) (participants : nat)
| MPeerJoined (peerId : json) (shouldCreateOffer : bool)
| MOffer (offer : json) (from : option json)
| MAnswer (answer : json) (from : option json)
| MIceCandidate (candidate : json) (from : option json)
| MPeerLeft (peerId : json).


Inductive effect : Type :=
| Send (to : conn) (m : out_message)
| Ping (c : conn)
| Terminate (c : conn).

(** ** The inner map, keyed by value *)

Fixpoint pm_has (id : jsval) (ps : list (jsval * nat)) : bool :=
  match ps with
  | [] => false
  | (k, _) :: rest =>
      if bool_decide (key_of k = key_of id) then true else pm_has id rest
  end.

Fixpoint pm_get (id : jsval) (ps : list (jsval * nat)) : option conn :=
  match ps with
  | [] => None
  | (k, w) :: rest =>
      if bool_decide (key_of k = key_of id) then Some w else pm_get id rest
  end.

Fixpoint pm_set (id : jsval) (w : conn) (ps : list (jsval * nat))
  : list (jsval * nat) :=
  match ps with
  | [] => [(id, w)]
  | (k, v) :: rest =>
      if bool_decide (key_of k = key_of id) then (k, w) :: rest
      else (k, v) :: pm_set id w rest
  end.

Fixpoint pm_delete (id : jsval) (ps : list (jsval * nat))
  : list (jsval * nat) :=
  match ps with
  | [] => []
  | (k, v) :: rest =>
      if bool_decide (key_of k = key_of id) then rest
      else (k, v) :: pm_delete id rest
  end.

Definition pm_size (ps : list (jsval * nat)) : nat := length ps.

Definition pm_keys (ps : list (jsval * nat)) : list jsval := map fst ps.

(** [Array.prototype.find] with the predicate [otherId !== id]. *)
Fixpoint find_other (id : jsval) (keys : list jsval) : option jsval :=
  match keys with
  | [] => None
  | k :: rest => if strict_eq k id then find_other id rest else Some k
  end.

(** ** The closure variables and what a handler can touch *)

Record session : Type := Session {
  currentRoom : option jsval;
  clientId : option jsval;
  isAuthenticated : bool
}.

Definition fresh_session : session := Session None None false.

Record ctx : Type := Ctx {
  vars : session;
  rooms : gmap key (list (jsval * nat));
  wire : list effect
}.

(** How a handler ends: by returning, or by an exception thrown from a log
    statement, with the state it had reached. *)
Inductive outcome : Type :=
| Done (k : ctx)
| Thrown (k : ctx).

Definition state_of (o : outcome) : ctx :=
  match o with
  | Done k => k
  | Thrown k => k
  end.

Definition set_vars (v : session) (k : ctx) : ctx := Ctx v (rooms k) (wire k).

Definition set_rooms (r : gmap key (list (jsval * nat))) (k : ctx) : ctx :=
  Ctx (vars k) r (wire k).

Definition send (to : conn) (m : out_message) (k : ctx) : ctx :=
  Ctx (vars k) (rooms k) (wire k ++ [Send to m]).

Definition getRoomSize (rs : gmap key (list (jsval * nat))) (roomName : jsval)
  : nat :=
  match rs !! key_of roomName with
  | Some ps => pm_size ps
  | None => 0
  end.

Section Connection.

Variable readyState : conn -> ready_state.

Fixpoint forEach_send (ps : list (jsval * nat)) (m : out_message)
         (excludeId : option jsval) (k : ctx) : ctx :=
  match ps with
  | [] => k
  | (id, w) :: rest =>
      forEach_send rest m excludeId
        (if negb (strict_eq_opt id excludeId) && is_open readyState w
         then send w m k else k)
  end.

Definition broadcastToRoom (roomName : jsval) (m : out_message)
           (excludeId : option jsval) (k : ctx) : ctx :=
  match rooms k !! key_of roomName with
  | None => k
  | Some ps => forEach_send ps m excludeId k
  end.

Definition sendToClient (roomName : jsval) (id : jsval) (m : out_message)
           (k : ctx) : ctx :=
  match rooms k !! key_of roomName with
  | None => k
  | Some ps =>
      match pm_get id ps with
      | Some w => if is_open readyState w then send w m k else k
      | None => k
      end
  end.

Variable ws : conn.

Definition handleLeave (k : ctx) : outcome :=
  match currentRoom (vars k), clientId (vars k) with
  | Some room, Some id =>
      if negb (truthy (shape room)) || negb (truthy (shape id)) then Done k
      else if negb (prints (shape id) && prints (shape room))
      then Thrown k (* the log of line 305 *)
      else
        let k1 :=
          match rooms k !! key_of room with
          | Some ps =>
              let k' := broadcastToRoom room (MPeerLeft (shape id)) (Some id) k in
              let ps' := pm_delete id ps in
              if pm_size ps' =? 0
              then set_rooms (delete (key_of room) (rooms k')) k'
              else set_rooms (<[key_of room := ps']> (rooms k')) k'
          | None => k
          end in
        Done (set_vars fresh_session k1)
  | _, _ => Done k
  end.

Definition handleJoin (m : message) (k : ctx) : outcome :=
  match m_room m, m_id m with
  | Some room, Some id =>
      if negb (truthy (shape room)) || negb (truthy (shape id))
      then Done (send ws (MError "Room name and ID are required") k)
      else
        (* Clean up if already in a room *)
        match (match currentRoom (vars k) with
               | Some cur =>
                   if truthy (shape cur) && negb (strict_eq cur room)
                   then handleLeave k else Done k
               | None => Done k
               end) with
        | Thrown k1 => Thrown k1
        | Done k1 =>
            (* Create room if doesn't exist; the log of line 170 *)
            match (match rooms k1 !! key_of room with
                   | Some _ => Done k1
                   | None =>
                       let k2 := set_rooms (<[key_of room := []]> (rooms k1)) k1 in
                       if prints (shape room) then Done k2 else Thrown k2
                   end) with
            | Thrown k2 => Thrown k2
            | Done k2 =>
                let ps := default [] (rooms k2 !! key_of room) in
                (* Check room capacity (max 2 participants) *)
                if (2 <=? pm_size ps) && negb (pm_has id ps)
                then Done (send ws
                             (MError "Room is full. Maximum 2 participants allowed.")
                             k2)
                else
                  let stored :=
                    set_rooms (<[key_of room := pm_set id ws ps]> (rooms k2)) k2 in
                  match (if pm_has id ps
                         then (* the log of line 186, then the set *)
                           if prints (shape id) && prints (shape room)
                           then Done stored else Thrown k2
                         else (* the set, then the log of line 191 *)
                           if prints (shape id) && prints (shape room)
                           then Done stored else Thrown stored) with
                  | Thrown k3 => Thrown k3
                  | Done k3 =>
                      let ps' := pm_set id ws ps in
                      let k4 :=
                        set_vars (Session (Some room) (Some id) true) k3 in
                      let k5 :=
                        send ws (MJoined (shape room) (shape id) (pm_size ps')) k4 in
                      if pm_size ps' =? 2 then
                        match find_other id (pm_keys ps') with
                        | Some other =>
                            if truthy (shape other) then
                              (* the log of line 212 *)
                              if prints (shape room) then
                                Done (send ws (MPeerJoined (shape other) false)
                                        (sendToClient room other
                                           (MPeerJoined (shape id) true) k5))
                              else Thrown k5
                            else Done k5
                        | None => Done k5
                        end
                      else Done k5
                  end
            end
        end
  | _, _ => Done (send ws (MError "Room name and ID are required") k)
  end.

Definition handleOffer (m : message) (k : ctx) : outcome :=
  match currentRoom (vars k) with
  | Some room =>
      if negb (isAuthenticated (vars k)) || negb (truthy (shape room))
      then Done k
      else
        let offer := m_offer m in
        let targetId := m_targetId m in
        match offer with
        | Some body =>
            if negb (truthy_field offer) then Done k
            else if negb (prints_val (clientId (vars k)) && prints (shape room))
            then Thrown k (* the log of line 245 *)
            else
              Done (broadcastToRoom room
                      (MOffer body (option_map shape (clientId (vars k))))
                      (clientId (vars k)) k)
        | None => Done k
        end
  | None => Done k
  end.

Definition handleAnswer (m : message) (k : ctx) : outcome :=
  match currentRoom (vars k) with
  | Some room =>
      if negb (isAuthenticated (vars k)) || negb (truthy (shape room))
      then Done k
      else
        let answer := m_answer m in
        match answer with
        | Some body =>
            if negb (truthy_field answer) then Done k
            else if negb (prints_val (clientId (vars k)) && prints (shape room))
            then Thrown k (* the log of line 269 *)
            else
              Done (broadcastToRoom room
                      (MAnswer body (option_map shape (clientId (vars k))))
                      (clientId (vars k)) k)
        | None => Done k
        end
  | None => Done k
  end.

Definition handleIceCandidate (m : message) (k : ctx) : outcome :=
  match currentRoom (vars k) with
  | Some room =>
      if negb (isAuthenticated (vars k)) || negb (truthy (shape room))
      then Done k
      else
        let candidate := m_candidate m in
        match candidate with
        | Some body =>
            if negb (truthy_field candidate) then Done k
            else
              Done (broadcastToRoom room
                      (MIceCandidate body (option_map shape (clientId (vars k))))
                      (clientId (vars k)) k)
        | None => Done k
        end
  | None => Done k
  end.

(** The [catch] of the message callback. *)
Definition caught (o : outcome) : ctx :=
  match o with
  | Done k => k
  | Thrown k => send ws (MError "Invalid message format") k
  end.

(** [clientId || 'UNKNOWN'] in the log of line 105. *)
Definition prints_label (v : option jsval) : bool :=
  match v with
  | Some x => if truthy (shape x) then prints (shape x) else true
  | None => true
  end.

Definition prints_field (v : option json) : bool :=
  match v with
  | Some j => prints j
  | None => true
  end.

(** [ws.on('message')]: [None] is a frame that [JSON.parse] rejects, or
    that parses to [null], whose [type] cannot be read. *)
Definition on_message (data : option message) (k : ctx) : ctx :=
  match data with
  | None => send ws (MError "Invalid message format") k
  | Some m =>
      if negb (prints_label (clientId (vars k)) && prints_field (m_type m))
      then caught (Thrown k) (* the log of line 105 *)
      else
        caught
          match m_type m with
          | Some (JStr t) =>
              if String.eqb t "join" then handleJoin m k
              else if String.eqb t "offer" then handleOffer m k
              else if String.eqb t "answer" then handleAnswer m k
              else if String.eqb t "ice-candidate" then handleIceCandidate m k
              else if String.eqb t "leave" then handleLeave k
              else Done k
          | _ => Done k
          end
  end.

(** [ws.on('close')] and [ws.on('error')]: the log of lines 141 and 146,
    then the leave; nothing catches what they throw. *)
Definition on_close (k : ctx) : outcome :=
  if prints_val (clientId (vars k)) then handleLeave k else Thrown k.

Definition on_error (k : ctx) : outcome :=
  if prints_val (clientId (vars k)) then handleLeave k else Thrown k.

End Connection.

(** ** The server *)

Record socket : Type := Socket {
  sk_readyState : ready_state;
  sk_isAlive : bool;
  sk_closure : session
}.

(** [heap] counts the frames parsed so far; [crashed] is set when a close
    or error callback has thrown, which ends the process. *)
Record server : Type := Server {
  table : gmap key (list (jsval * nat));
  sockets : gmap nat socket;
  clients : list nat;
  log : list effect;
  heap : nat;
  crashed : bool
}.

Definition init_server : server := Server ∅ ∅ [] [] 0 false.

Definition ready_of (s : server) (c : conn) : ready_state :=
  match sockets s !! c with
  | Some sk => sk_readyState sk
  | None => CLOSED
  end.

Definition closure_of (s : server) (c : conn) : session :=
  match sockets s !! c with
  | Some sk => sk_closure sk
  | None => fresh_session
  end.

Definition tracked (s : server) (c : conn) : bool := bool_decide (c ∈ clients s).

Definition run_handler (c : conn)
           (h : (conn -> ready_state) -> conn -> ctx -> outcome) (s : server)
  : server :=
  match sockets s !! c with
  | None => s
  | Some sk =>
      let o := h (ready_of s) c (Ctx (sk_closure sk) (table s) (log s)) in
      let k := state_of o in
      Server (rooms k)
             (<[c := Socket (sk_readyState sk) (sk_isAlive sk) (vars k)]> (sockets s))
             (clients s) (wire k) (heap s)
             (match o with Done _ => crashed s | Thrown _ => true end)
  end.

Definition update_socket (c : conn) (f : socket -> socket) (s : server) : server :=
  Server (table s) (alter f c (sockets s)) (clients s) (log s) (heap s)
         (crashed s).

Definition set_ready (r : ready_state) (sk : socket) : socket :=
  Socket r (sk_isAlive sk) (sk_closure sk).

Definition set_alive (b : bool) (sk : socket) : socket :=
  Socket (sk_readyState sk) b (sk_closure sk).

Definition terminate (sk : socket) : socket :=
  match sk_readyState sk with
  | CLOSED => sk
  | _ => set_ready CLOSING sk
  end.

Definition heartbeat_one (s : server) (c : conn) : server :=
  match sockets s !! c with
  | None => s
  | Some sk =>
      if negb (sk_isAlive sk)
      then Server (table s) (<[c := terminate sk]> (sockets s)) (clients s)
                  (log s ++ [Terminate c]) (heap s) (crashed s)
      else Server (table s) (<[c := set_alive false sk]> (sockets s)) (clients s)
                  (log s ++ [Ping c]) (heap s) (crashed s)
  end.

Definition heartbeat (s : server) : server :=
  foldl heartbeat_one s (clients s).

Inductive event : Type :=
| Connect (c : conn)
| Incoming (c : conn) (data : option frame)
| Pong (c : conn)
| Closing (c : conn)
| Failed (c : conn)
| Closed (c : conn)
| Tick.

Definition untrack (c : conn) (s : server) : server :=
  Server (table s) (sockets s) (filter (λ x, x ≠ c) (clients s)) (log s)
         (heap s) (crashed s).

Definition count_frame (s : server) : server :=
  Server (table s) (sockets s) (clients s) (log s) (S (heap s)) (crashed s).

Definition step (s : server) (e : event) : server :=
  if crashed s then s
  else
    match e with
    | Connect c =>
        match sockets s !! c with
        | Some _ => s
        | None =>
            Server (table s)
                   (<[c := Socket OPEN true fresh_session]> (sockets s))
                   (clients s ++ [c]) (log s) (heap s) (crashed s)
        end
    | Incoming c data =>
        if tracked s c
        then count_frame
               (run_handler c
                  (λ rs w k,
                     Done (on_message rs w (option_map (read (heap s)) data) k))
                  s)
        else s
    | Pong c =>
        if tracked s c then update_socket c (set_alive true) s else s
    | Closing c =>
        if tracked s c then update_socket c (set_ready CLOSING) s else s
    | Failed c =>
        if tracked s c then run_handler c (λ rs _, on_error rs) s else s
    | Closed c =>
        if tracked s c
        then run_handler c (λ rs _, on_close rs)
               (untrack c (update_socket c (set_ready CLOSED) s))
        else s
    | Tick => heartbeat s
    end.

Definition run (s : server) (evs : list event) : server := foldl step s evs.

(** Frames clients send. *)
Definition join (room id : json) : frame :=
  Frame (Some (JStr "join")) (Some room) (Some id) None None None None.

Definition leave : frame :=
  Frame (Some (JStr "leave")) None None None None None None.

Definition offer (body : json) : frame :=
  Frame (Some (JStr "offer")) None None (Some body) None None None.

(** An object whose conversion to a string throws: [{"toString": 1}]. *)
Definition unprintable : json := JObj [("toString", JNum one)].

(** ** Vocabulary of the statements *)

(** A value the handlers accept and can log: truthy, and its conversion to
    a string returns.  Every non-empty string is one, and so is every
    non-zero number, [true], and every object without an own [toString]. *)
Definition usable (v : jsval) : bool := truthy (shape v) && prints (shape v).

(** The closure variables are set together, after the log of the join has
    printed both values. *)
Definition session_ok (v : session) : Prop :=
  v = fresh_session ∨
  ∃ room id, v = Session (Some room) (Some id) true ∧
             usable room = true ∧ usable id = true.

(** The sockets [broadcastToRoom] sends on, in order. *)
Fixpoint recipients (readyState : conn -> ready_state)
         (excludeId : option jsval) (ps : list (jsval * nat)) : list conn :=
  match ps with
  | [] => []
  | (id, w) :: rest =>
      if negb (strict_eq_opt id excludeId) && is_open readyState w
      then w :: recipients readyState excludeId rest
      else recipients readyState excludeId rest
  end.

(** The clean-up step of [handleJoin], and the state it ends in. *)
Definition cleanup (readyState : conn -> ready_state) (room : jsval)
           (k : ctx) : outcome :=
  match currentRoom (vars k) with
  | Some cur =>
      if truthy (shape cur) && negb (strict_eq cur room)
      then handleLeave readyState k else Done k
  | None => Done k
  end.

Definition after_cleanup (readyState : conn -> ready_state) (room : jsval)
           (k : ctx) : ctx :=
  state_of (cleanup readyState room k).

(** The two notifications of a room that has just reached two entries. *)
Definition notify_pair (readyState : conn -> ready_state) (ws : conn)
           (room id : jsval) (ps : list (jsval * nat)) (k : ctx) : ctx :=
  if pm_size ps =? 2 then
    match find_other id (pm_keys ps) with
    | Some other =>
        if truthy (shape other) then
          send ws (MPeerJoined (shape other) false)
            (sendToClient readyState room other (MPeerJoined (shape id) true) k)
        else k
    | None => k
    end
  else k.

(** The three relay handlers by kind. *)
Definition relay_field (kd : relay_kind) (m : message) : option json :=
  match kd with
  | KOffer => m_offer m
  | KAnswer => m_answer m
  | KIceCandidate => m_candidate m
  end.

Definition relay_out (kd : relay_kind) : json -> option json -> out_message :=
  match kd with
  | KOffer => MOffer
  | KAnswer => MAnswer
  | KIceCandidate => MIceCandidate
  end.

Definition relay_handler (kd : relay_kind) (readyState : conn -> ready_state)
           (m : message) (k : ctx) : outcome :=
  match kd with
  | KOffer => handleOffer readyState m k
  | KAnswer => handleAnswer readyState m k
  | KIceCandidate => handleIceCandidate readyState m k
  end.

(** A tree that [JSON.stringify] and [JSON.parse] hand over unchanged:
    every number in it is finite and none is negative zero. *)
Fixpoint plain (j : json) : bool :=
  match j with
  | JNum n => is_finite n && negb (bool_decide (n = minus_zero))
  | JArr items => forallb plain items
  | JObj fields => forallb (λ f, plain (snd f)) fields
  | _ => true
  end.

(** A key that only a truthy value has. *)
Definition key_truthy (r : key) : bool :=
  match r with
  | KNull => false
  | KBool b => b
  | KNum n => negb (is_zero n || is_nan n)
  | KStr s => negb (String.eqb s "")
  | KObj _ => true
  end.

(** What holds of the room table and the closures after any events: the
    sockets stored are known ones, room keys and ids are truthy, no id is
    twice in a room, no room holds more than two, and every closure is
    cleared or holds a room and id that were logged. *)
Definition room_ok (r : key) (ps : list (jsval * nat)) : Prop :=
  key_truthy r = true ∧
  NoDup (map key_of (pm_keys ps)) ∧
  Forall (λ id, truthy (shape id) = true) (pm_keys ps) ∧
  pm_size ps ≤ 2.

Definition server_ok (s : server) : Prop :=
  map_Forall room_ok (table s) ∧
  (∀ r ps id w, table s !! r = Some ps → (id, w) ∈ ps →
                is_Some (sockets s !! w)) ∧
  (∀ c sk, sockets s !! c = Some sk → session_ok (sk_closure sk)) ∧
  crashed s = false.

(** Frames and scenarios. *)
Definition str (s : string) : json := JStr s.

Definition answer (body : json) : frame :=
  Frame (Some (JStr "answer")) None None None (Some body) None None.

Definition ice_candidate (body : json) : frame :=
  Frame (Some (JStr "ice-candidate")) None None None None (Some body) None.

(** The number with the given bit pattern. *)
Definition mk (b : N) : number :=
  match (b <? 18446744073709551616)%N as t
        return ((b <? 18446744073709551616)%N = t → number) with
  | true => λ H, exist _ b H
  | false => λ _, plus_zero
  end eq_refl.

(** The number [JSON.parse] yields for an integer literal: the nearest
    double, a tie going to the even fraction, and infinity beyond the
    largest one. *)
Definition of_integer (z : Z) : number :=
  let a := Z.abs_N z in
  let sign := if (z <? 0)%Z then 9223372036854775808%N else 0%N in
  if (a =? 0)%N then plus_zero
  else
    let e := N.log2 a in
    let '(m, e') :=
      if (e <=? 52)%N then ((a * 2 ^ (52 - e))%N, e)
      else
        let sh := (e - 52)%N in
        let q := (a / 2 ^ sh)%N in
        let r := (a mod 2 ^ sh)%N in
        let half := (2 ^ (sh - 1))%N in
        let q' :=
          if (half <? r)%N || ((r =? half)%N && N.odd q)
          then (q + 1)%N else q in
        if (q' =? 9007199254740992)%N
        then (4503599627370496%N, (e + 1)%N) else (q', e) in
    if (1023 <? e')%N then mk (sign + 9218868437227405312)
    else mk (sign + (e' + 1023) * 4503599627370496 + (m - 4503599627370496)).

(** Alice and Bob pair in "room1" (sockets 0 and 1). *)
Definition paired : list event :=
  [Connect 0; Incoming 0 (Some (join (JStr "room1") (JStr "alice")));
   Connect 1; Incoming 1 (Some (join (JStr "room1") (JStr "bob")))].

(** Alice is alone in "room1" and her transport has started closing. *)
Definition alice_closing : list event :=
  [Connect 0; Incoming 0 (Some (join (JStr "room1") (JStr "alice")));
   Closing 0; Connect 1].

(** Socket 0 joins "room1" as alice and again as bob. *)
Definition joined_twice : list event :=
  [Connect 0; Incoming 0 (Some (join (JStr "room1") (JStr "alice")));
   Incoming 0 (Some (join (JStr "room1") (JStr "bob")))].

Definition sdp (kind body : string) : json :=
  JObj [("type", JStr kind); ("sdp", JStr body)].

(** Socket [w] is stored somewhere in the room table [t]. *)
Definition refers (t : gmap key (list (jsval * nat))) (w : conn) : Prop :=
  ∃ r (ps : list (jsval * nat)) id, t !! r = Some ps ∧ (id, w) ∈ ps.

(** The states in which a join of [room] under [id], both truthy, can
    leave the closure variables and the table: refused or thrown before
    the table is touched; thrown after the room was created; the id stored,
    and then either thrown or the closure variables assigned. *)
Definition join_result (readyState : conn -> ready_state) (ws : conn)
           (room id : jsval) (k k' : ctx) : Prop :=
  let k1 := after_cleanup readyState room k in
  let ps := default [] (rooms k1 !! key_of room) in
  (vars k' = vars k1 ∧ rooms k' = rooms k1) ∨
  (vars k' = vars k1 ∧ rooms k1 !! key_of room = None ∧
   prints (shape room) = false ∧
   rooms k' = <[key_of room := []]> (rooms k1)) ∨
  ((2 <=? pm_size ps) && negb (pm_has id ps) = false ∧
   rooms k' = <[key_of room := pm_set id ws ps]> (rooms k1) ∧
   (vars k' = vars k1 ∨
    (usable room = true ∧ usable id = true ∧
     vars k' = Session (Some room) (Some id) true))).

(** Room [KObj a] is in the table with no participant, no closure names
    it and no later frame can: the objects of later frames are new ones. *)
Definition abandoned (a : nat) (s : server) : Prop :=
  table s !! KObj a = Some [] ∧ a < 2 * heap s ∧
  ∀ c sk cur, sockets s !! c = Some sk →
              currentRoom (sk_closure sk) = Some cur → key_of cur ≠ KObj a.

(** An event that is not a frame whose [room] the log cannot print. *)
Definition prints_room (e : event) : Prop :=
  ∀ c f room, e = Incoming c (Some f) → f_room f = Some room →
              prints room = true.

(** The first frame of a new connection asks to join a room that is an
    object with an own [toString]. *)
Definition failing_join : list event :=
  [Connect 0; Incoming 0 (Some (join unprintable (JStr "a")))].

(** Bob is in "room1" with Alice and his transport has started closing. *)
Definition bob_closing : list event := paired ++ [Closing 1].

Definition room_full : out_message :=
  MError "Room is full. Maximum 2 participants allowed.".

End Js.

(** ** Facts about the inner map *)

Ltac case_eqb :=
  match goal with
  | |- context [String.eqb ?a ?b] => destruct (String.eqb_spec a b); subst
  | H : context [String.eqb ?a ?b] |- _ => destruct (String.eqb_spec a b); subst
  end.

Lemma if_same {A} (b : bool) (x : A) : (if b then x else x) = x.
Proof. by destruct b. Qed.

Lemma str_truthy_true s : str_truthy s = true ↔ s ≠ "".
Proof. unfold str_truthy. case_eqb; naive_solver. Qed.

Lemma pm_has_keys id (ps : list (string * nat)) :
  pm_has id ps = true ↔ id ∈ pm_keys ps.
Proof.
  induction ps as [|[k v] rest IH]; simpl.
  - split; [discriminate | intros H; inversion H].
  - case_eqb.
    + split; [intros _; left | done].
    + rewrite IH. split; [by right | intros H; inversion H; by subst].
Qed.

Lemma pm_has_false_keys id (ps : list (string * nat)) :
  pm_has id ps = false ↔ id ∉ pm_keys ps.
Proof. rewrite <- pm_has_keys. destruct (pm_has id ps); naive_solver. Qed.

Lemma pm_get_has id (ps : list (string * nat)) :
  pm_has id ps = true ↔ is_Some (pm_get id ps).
Proof.
  induction ps as [|[k v] rest IH]; simpl.
  - split; [discriminate | by intros [? ?]].
  - case_eqb; [by split; eauto | done].
Qed.

Lemma pm_set_has id w (ps : list (string * nat)) :
  pm_has id ps = true → pm_keys (pm_set id w ps) = pm_keys ps.
Proof.
  induction ps as [|[k v] rest IH]; simpl; [discriminate|].
  case_eqb; simpl; [done|]. intros H. by rewrite IH.
Qed.

Lemma pm_set_new id w (ps : list (string * nat)) :
  pm_has id ps = false → pm_set id w ps = ps ++ [(id, w)].
Proof.
  induction ps as [|[k v] rest IH]; simpl; [done|].
  case_eqb; [discriminate|]. intros H. by rewrite IH.
Qed.

Lemma pm_set_size id w (ps : list (string * nat)) :
  pm_size (pm_set id w ps) = if pm_has id ps then pm_size ps else S (pm_size ps).
Proof.
  unfold pm_size. induction ps as [|[k v] rest IH]; simpl; [done|].
  case_eqb; simpl; [done|]. rewrite IH. by destruct (pm_has id rest).
Qed.

Lemma pm_get_set_eq id w (ps : list (string * nat)) :
  pm_get id (pm_set id w ps) = Some w.
Proof.
  induction ps as [|[k v] rest IH]; simpl.
  - by rewrite String.eqb_refl.
  - case_eqb; simpl.
    + by rewrite String.eqb_refl.
    + by case_eqb.
Qed.

Lemma pm_get_set_ne id id' w (ps : list (string * nat)) :
  id ≠ id' → pm_get id' (pm_set id w ps) = pm_get id' ps.
Proof.
  intros Hne. induction ps as [|[k v] rest IH]; simpl.
  - by case_eqb.
  - destruct (String.eqb_spec k id) as [->|Hk]; simpl.
    + by case_eqb.
    + by rewrite IH.
Qed.

Lemma pm_delete_absent id (ps : list (string * nat)) :
  pm_has id ps = false → pm_delete id ps = ps.
Proof.
  induction ps as [|[k v] rest IH]; simpl; [done|].
  case_eqb; [discriminate|]. intros H. by rewrite IH.
Qed.

Lemma pm_delete_size id (ps : list (string * nat)) :
  pm_has id ps = true → S (pm_size (pm_delete id ps)) = pm_size ps.
Proof.
  unfold pm_size. induction ps as [|[k v] rest IH]; simpl; [discriminate|].
  case_eqb; simpl; [done|]. intros H. by rewrite IH.
Qed.

Lemma pm_delete_size_le id (ps : list (string * nat)) :
  pm_size (pm_delete id ps) ≤ pm_size ps.
Proof.
  destruct (pm_has id ps) eqn:E.
  - apply pm_delete_size in E. lia.
  - by rewrite pm_delete_absent.
Qed.

Lemma pm_delete_keys id (ps : list (string * nat)) :
  pm_keys (pm_delete id ps) `sublist_of` pm_keys ps.
Proof.
  induction ps as [|[k v] rest IH]; simpl; [done|].
  case_eqb; simpl.
  - by apply sublist_cons.
  - by apply sublist_skip.
Qed.



Lemma find_other_spec id (keys : list string) other :
  find_other id keys = Some other → other ∈ keys ∧ other ≠ id.
Proof.
  induction keys as [|k rest IH]; simpl; [discriminate|].
  case_eqb.
  - intros H. destruct (IH H). split; [by right | done].
  - intros [= ->]. split; [left | done].
Qed.

(** ** The relay helpers *)

Section Helpers.

Variable readyState : conn -> ready_state.

Lemma forEach_send_spec (ps : list (string * nat)) m ex k :
  forEach_send readyState ps m ex k =
  Ctx (vars k) (rooms k)
      (wire k ++ map (λ w, Send w m) (recipients readyState ex ps)).
Proof.
  revert k. induction ps as [|[id w] rest IH]; intros k; simpl.
  - rewrite app_nil_r. by destruct k.
  - rewrite IH.
    destruct (bool_decide (Some id ≠ ex) && is_open readyState w); simpl;
      [|done].
    by rewrite <- app_assoc.
Qed.

Lemma broadcastToRoom_spec room (ps : list (string * nat)) m ex k :
  rooms k !! room = Some ps →
  broadcastToRoom readyState room m ex k =
  Ctx (vars k) (rooms k)
      (wire k ++ map (λ w, Send w m) (recipients readyState ex ps)).
Proof.
  intros H. unfold broadcastToRoom. rewrite H. apply forEach_send_spec.
Qed.

Lemma broadcastToRoom_absent room m ex k :
  rooms k !! room = None → broadcastToRoom readyState room m ex k = k.
Proof. intros H. unfold broadcastToRoom. by rewrite H. Qed.

Lemma broadcastToRoom_vars room m ex k :
  vars (broadcastToRoom readyState room m ex k) = vars k.
Proof.
  destruct (rooms k !! room) as [ps|] eqn:E.
  - by rewrite (broadcastToRoom_spec _ _ _ _ _ E).
  - by rewrite broadcastToRoom_absent.
Qed.

Lemma broadcastToRoom_rooms room m ex k :
  rooms (broadcastToRoom readyState room m ex k) = rooms k.
Proof.
  destruct (rooms k !! room) as [ps|] eqn:E.
  - by rewrite (broadcastToRoom_spec _ _ _ _ _ E).
  - by rewrite broadcastToRoom_absent.
Qed.

Lemma sendToClient_vars room id m k :
  vars (sendToClient readyState room id m k) = vars k.
Proof.
  unfold sendToClient. destruct (rooms k !! room) as [ps|]; [|done].
  destruct (pm_get id ps); [|done]. by destruct (is_open readyState n).
Qed.

Lemma sendToClient_rooms room id m k :
  rooms (sendToClient readyState room id m k) = rooms k.
Proof.
  unfold sendToClient. destruct (rooms k !! room) as [ps|]; [|done].
  destruct (pm_get id ps); [|done]. by destruct (is_open readyState n).
Qed.

(** *** [handleLeave] *)

Lemma handleLeave_spec room id auth rs w :
  room ≠ "" → id ≠ "" →
  handleLeave readyState (Ctx (Session (Some room) (Some id) auth) rs w) =
  match rs !! room with
  | Some ps =>
      Ctx fresh_session
          (if pm_size (pm_delete id ps) =? 0 then delete room rs
           else <[room := pm_delete id ps]> rs)
          (w ++ map (λ h, Send h (MPeerLeft id))
                    (recipients readyState (Some id) ps))
  | None => Ctx fresh_session rs w
  end.
Proof.
  intros Hr Hi. unfold handleLeave. simpl.
  apply str_truthy_true in Hr, Hi. rewrite Hr, Hi. simpl.
  destruct (rs !! room) as [ps|] eqn:E; [|done].
  erewrite broadcastToRoom_spec by exact E. simpl.
  by destruct (pm_size (pm_delete id ps) =? 0).
Qed.

Lemma handleLeave_fresh rs w :
  handleLeave readyState (Ctx fresh_session rs w) = Ctx fresh_session rs w.
Proof. done. Qed.

Lemma room_ok_delete name id (ps : list (string * nat)) :
  room_ok name ps → pm_size (pm_delete id ps) ≠ 0 →
  room_ok name (pm_delete id ps).
Proof.
  intros (Hn & Hnd & Hne & Hsz) Hz. repeat split; [done| | | lia |].
  - eapply sublist_NoDup; [done | apply pm_delete_keys].
  - rewrite Forall_forall in Hne |- *. intros x Hx. apply Hne.
    eapply elem_of_sublist; [done | apply pm_delete_keys].
  - pose proof (pm_delete_size_le id ps). lia.
Qed.

Lemma handleLeave_registry_ok k :
  registry_ok (rooms k) → registry_ok (rooms (handleLeave readyState k)).
Proof.
  intros Hok. destruct k as [[cr ci a] rs w]. simpl in Hok.
  destruct cr as [room|]; [|done]. destruct ci as [id|]; [|done].
  destruct (decide (room = "")) as [->|Hr]; [done|].
  destruct (decide (id = "")) as [->|Hi].
  { unfold handleLeave. simpl. by rewrite orb_true_r. }
  rewrite handleLeave_spec by done.
  destruct (rs !! room) as [ps|] eqn:E; simpl; [|done].
  destruct (pm_size (pm_delete id ps) =? 0) eqn:Ez.
  - by apply map_Forall_delete.
  - apply map_Forall_insert_2; [|done].
    apply room_ok_delete; [by apply (Hok room) |].
    by apply Nat.eqb_neq.
Qed.

Lemma handleLeave_session_ok k :
  session_ok (vars k) → vars (handleLeave readyState k) = fresh_session.
Proof.
  destruct k as [v rs w]. simpl.
  intros [->|(room & id & Hr & Hi & ->)]; [done|].
  rewrite handleLeave_spec by done. by destruct (rs !! room).
Qed.

(** [handleLeave] only touches the room named by [currentRoom]. *)
Lemma handleLeave_other_room k room :
  currentRoom (vars k) ≠ Some room →
  rooms (handleLeave readyState k) !! room = rooms k !! room.
Proof.
  destruct k as [[cr ci a] rs w]. simpl. intros Hne.
  destruct cr as [cur|]; [|done]. destruct ci as [id|]; [|done].
  destruct (decide (cur = "")) as [->|Hr]; [done|].
  destruct (decide (id = "")) as [->|Hi].
  { unfold handleLeave. simpl. by rewrite orb_true_r. }
  rewrite handleLeave_spec by done.
  destruct (rs !! cur) as [ps|] eqn:E; simpl; [|done].
  assert (cur ≠ room) by congruence.
  destruct (pm_size (pm_delete id ps) =? 0).
  - by rewrite lookup_delete_ne.
  - by rewrite lookup_insert_ne.
Qed.

(** *** The clean-up step of [handleJoin] *)

Lemma after_cleanup_same room k :
  currentRoom (vars k) = None ∨ currentRoom (vars k) = Some room →
  after_cleanup readyState room k = k.
Proof.
  unfold after_cleanup. intros [-> | ->]; [done|].
  rewrite bool_decide_eq_false_2 by naive_solver. by rewrite andb_false_r.
Qed.

Lemma after_cleanup_switch room cur k :
  currentRoom (vars k) = Some cur → cur ≠ "" → cur ≠ room →
  after_cleanup readyState room k = handleLeave readyState k.
Proof.
  unfold after_cleanup. intros -> Hc Hne.
  apply str_truthy_true in Hc. rewrite Hc.
  by rewrite bool_decide_eq_true_2.
Qed.

Lemma session_ok_room v cur :
  session_ok v → currentRoom v = Some cur → cur ≠ "".
Proof. intros [->|(r & i & Hr & Hi & ->)]; [done|]. by intros [= <-]. Qed.

(** *** [handleJoin] *)

Variable ws : conn.

Lemma handleJoin_invalid m k :
  (∀ room id, m_room m = Some room → m_id m = Some id → room = "" ∨ id = "") →
  handleJoin readyState ws m k =
  send ws (MError "Room name and ID are required") k.
Proof.
  intros H. unfold handleJoin.
  destruct (m_room m) as [room|]; [|done].
  destruct (m_id m) as [id|]; [|done].
  destruct (H room id eq_refl eq_refl) as [-> | ->]; [done|].
  by rewrite orb_true_r.
Qed.

Lemma handleJoin_full m room id (ps : list (string * nat)) k :
  m_room m = Some room → m_id m = Some id → room ≠ "" → id ≠ "" →
  rooms (after_cleanup readyState room k) !! room = Some ps →
  2 ≤ pm_size ps → pm_has id ps = false →
  handleJoin readyState ws m k =
  send ws (MError "Room is full. Maximum 2 participants allowed.")
       (after_cleanup readyState room k).
Proof.
  intros Hm1 Hm2 Hr Hi Hps Hsz Hhas. unfold handleJoin.
  rewrite Hm1, Hm2. apply str_truthy_true in Hr, Hi. rewrite Hr, Hi.
  cbn [negb orb]. fold (after_cleanup readyState room k). cbv zeta.
  rewrite !Hps. cbv beta iota. change (default [] (Some ps)) with ps.
  rewrite Hhas.
  apply Nat.leb_le in Hsz. by rewrite Hsz.
Qed.

Lemma handleJoin_accept m room id k :
  m_room m = Some room → m_id m = Some id → room ≠ "" → id ≠ "" →
  let k1 := after_cleanup readyState room k in
  let ps := default [] (rooms k1 !! room) in
  (2 <=? pm_size ps) && negb (pm_has id ps) = false →
  handleJoin readyState ws m k =
  notify_pair readyState ws room id (pm_set id ws ps)
    (Ctx (Session (Some room) (Some id) true)
         (<[room := pm_set id ws ps]> (rooms k1))
         (wire k1 ++ [Send ws (MJoined room id (pm_size (pm_set id ws ps)))])).
Proof.
  intros Hm1 Hm2 Hr Hi k1 ps Hcap. unfold handleJoin.
  rewrite Hm1, Hm2. apply str_truthy_true in Hr, Hi. rewrite Hr, Hi.
  cbn [negb orb]. fold (after_cleanup readyState room k). fold k1. cbv zeta.
  rewrite !if_same. subst ps. destruct (rooms k1 !! room) as [ps0|] eqn:E.
  - rewrite !E. cbv beta iota. change (default [] (Some ps0)) with ps0 in *.
    rewrite Hcap. done.
  - cbn [set_rooms rooms]. rewrite !lookup_insert_eq.
    change (default [] (Some [])) with (@nil (string * nat)).
    change (default [] None) with (@nil (string * nat)) in Hcap.
    rewrite Hcap. unfold set_rooms, set_vars, send, notify_pair. simpl.
    by rewrite insert_insert_eq.
Qed.

Lemma notify_pair_vars room id (ps : list (string * nat)) k :
  vars (notify_pair readyState ws room id ps k) = vars k.
Proof.
  unfold notify_pair. destruct (pm_size ps =? 2); [|done].
  destruct (find_other id (pm_keys ps)) as [other|]; [|done].
  destruct (str_truthy other); [|done]. simpl. apply sendToClient_vars.
Qed.

Lemma notify_pair_rooms room id (ps : list (string * nat)) k :
  rooms (notify_pair readyState ws room id ps k) = rooms k.
Proof.
  unfold notify_pair. destruct (pm_size ps =? 2); [|done].
  destruct (find_other id (pm_keys ps)) as [other|]; [|done].
  destruct (str_truthy other); [|done]. simpl. apply sendToClient_rooms.
Qed.

Lemma after_cleanup_registry_ok room k :
  registry_ok (rooms k) → registry_ok (rooms (after_cleanup readyState room k)).
Proof.
  intros H. unfold after_cleanup. destruct (currentRoom (vars k)); [|done].
  destruct (_ && _); [by apply handleLeave_registry_ok | done].
Qed.

Lemma after_cleanup_session_ok room k :
  session_ok (vars k) → session_ok (vars (after_cleanup readyState room k)).
Proof.
  intros H. unfold after_cleanup. destruct (currentRoom (vars k)); [|done].
  destruct (_ && _); [|done]. rewrite handleLeave_session_ok by done. by left.
Qed.

(** The clean-up step never touches the target room. *)
Lemma after_cleanup_target room k :
  rooms (after_cleanup readyState room k) !! room = rooms k !! room.
Proof.
  unfold after_cleanup. destruct (currentRoom (vars k)) as [cur|] eqn:E; [|done].
  destruct (str_truthy cur); simpl; [|done]. case_bool_decide; [|done].
  apply handleLeave_other_room. rewrite E. congruence.
Qed.

Lemma room_ok_set name id w (ps : list (string * nat)) :
  name ≠ "" → id ≠ "" → ps = [] ∨ room_ok name ps →
  (2 <=? pm_size ps) && negb (pm_has id ps) = false →
  room_ok name (pm_set id w ps).
Proof.
  intros Hn Hi Hps Hcap. unfold room_ok. rewrite pm_set_size.
  destruct Hps as [-> | (_ & Hnd & Hne & Hsz)].
  { simpl. repeat split; [done| | |lia..].
    - apply NoDup_singleton.
    - by apply Forall_singleton. }
  destruct (pm_has id ps) eqn:Hhas.
  - rewrite pm_set_has by done. done.
  - rewrite andb_true_r in Hcap. apply Nat.leb_gt in Hcap.
    rewrite pm_set_new by done. unfold pm_keys. rewrite map_app. simpl.
    repeat split; [done| | |lia..].
    + apply NoDup_app. repeat split; [done| |apply NoDup_singleton].
      intros x Hx ->%list_elem_of_singleton.
      by apply pm_has_false_keys in Hhas.
    + apply Forall_app. split; [done | by apply Forall_singleton].
Qed.

Lemma handleJoin_registry_ok m k :
  registry_ok (rooms k) → registry_ok (rooms (handleJoin readyState ws m k)).
Proof.
  intros Hok.
  destruct (m_room m) as [room|] eqn:Hm1; [|by unfold handleJoin; rewrite Hm1].
  destruct (m_id m) as [id|] eqn:Hm2; [|by unfold handleJoin; rewrite Hm1, Hm2].
  destruct (decide (room = "")) as [->|Hr].
  { rewrite handleJoin_invalid; [done|]. intros ?? ; rewrite Hm1. naive_solver. }
  destruct (decide (id = "")) as [->|Hi].
  { rewrite handleJoin_invalid; [done|]. intros ?? ; rewrite Hm2. naive_solver. }
  pose proof (after_cleanup_registry_ok room k Hok) as Hok1.
  set (k1 := after_cleanup readyState room k) in *.
  destruct ((2 <=? pm_size (default [] (rooms k1 !! room))) &&
            negb (pm_has id (default [] (rooms k1 !! room)))) eqn:Hcap.
  - apply andb_true_iff in Hcap as [Hsz Hhas].
    destruct (rooms k1 !! room) as [ps|] eqn:E; [|done].
    change (default [] (Some ps)) with ps in *.
    apply Nat.leb_le in Hsz. apply negb_true_iff in Hhas.
    rewrite (handleJoin_full m room id ps k) by done. done.
  - rewrite (handleJoin_accept m room id k) by done.
    rewrite notify_pair_rooms. simpl. fold k1.
    apply map_Forall_insert_2; [|done].
    apply room_ok_set; [done..| |done].
    destruct (rooms k1 !! room) as [ps|] eqn:E; simpl; [|by left].
    right. by apply (Hok1 room).
Qed.

Lemma handleJoin_session_ok m k :
  session_ok (vars k) → session_ok (vars (handleJoin readyState ws m k)).
Proof.
  intros Hok.
  destruct (m_room m) as [room|] eqn:Hm1; [|by unfold handleJoin; rewrite Hm1].
  destruct (m_id m) as [id|] eqn:Hm2; [|by unfold handleJoin; rewrite Hm1, Hm2].
  destruct (decide (room = "")) as [->|Hr].
  { rewrite handleJoin_invalid; [done|]. intros ?? ; rewrite Hm1. naive_solver. }
  destruct (decide (id = "")) as [->|Hi].
  { rewrite handleJoin_invalid; [done|]. intros ?? ; rewrite Hm2. naive_solver. }
  pose proof (after_cleanup_session_ok room k Hok) as Hok1.
  set (k1 := after_cleanup readyState room k) in *.
  destruct ((2 <=? pm_size (default [] (rooms k1 !! room))) &&
            negb (pm_has id (default [] (rooms k1 !! room)))) eqn:Hcap.
  - apply andb_true_iff in Hcap as [Hsz Hhas].
    destruct (rooms k1 !! room) as [ps|] eqn:E; [|done].
    change (default [] (Some ps)) with ps in *.
    apply Nat.leb_le in Hsz. apply negb_true_iff in Hhas.
    rewrite (handleJoin_full m room id ps k) by done. done.
  - rewrite (handleJoin_accept m room id k) by done.
    rewrite notify_pair_vars. simpl. right. eauto.
Qed.

(** *** The relay handlers *)

Lemma handleOffer_relay m k :
  handleOffer readyState m k = relay readyState (m_offer m) MOffer k.
Proof. reflexivity. Qed.

Lemma handleAnswer_relay m k :
  handleAnswer readyState m k = relay readyState (m_answer m) MAnswer k.
Proof. reflexivity. Qed.

Lemma handleIceCandidate_relay m k :
  handleIceCandidate readyState m k =
  relay readyState (m_candidate m) MIceCandidate k.
Proof. reflexivity. Qed.

Lemma relay_vars field mk k : vars (relay readyState field mk k) = vars k.
Proof.
  unfold relay. destruct (currentRoom (vars k)); [|done].
  destruct (_ || _); [done|]. destruct field; [|done].
  destruct (negb _); [done|]. apply broadcastToRoom_vars.
Qed.

Lemma relay_rooms field mk k : rooms (relay readyState field mk k) = rooms k.
Proof.
  unfold relay. destruct (currentRoom (vars k)); [|done].
  destruct (_ || _); [done|]. destruct field; [|done].
  destruct (negb _); [done|]. apply broadcastToRoom_rooms.
Qed.

(** *** The dispatcher *)

Lemma on_message_ok data k :
  registry_ok (rooms k) → session_ok (vars k) →
  registry_ok (rooms (on_message readyState ws data k)) ∧
  session_ok (vars (on_message readyState ws data k)).
Proof.
  intros Hr Hs. unfold on_message. destruct data as [m|]; [|done].
  destruct (m_type m) as [t|]; [|done].
  repeat (match goal with |- context [if ?b then _ else _] => destruct b end);
    try done.
  - split; [by apply handleJoin_registry_ok | by apply handleJoin_session_ok].
  - by rewrite handleOffer_relay, relay_vars, relay_rooms.
  - by rewrite handleAnswer_relay, relay_vars, relay_rooms.
  - by rewrite handleIceCandidate_relay, relay_vars, relay_rooms.
  - split; [by apply handleLeave_registry_ok |].
    rewrite handleLeave_session_ok by done. by left.
Qed.

End Helpers.

(** ** The server keeps its table well formed *)

Lemma run_handler_ok c h s :
  (∀ rs k, registry_ok (rooms k) → session_ok (vars k) →
           registry_ok (rooms (h rs c k)) ∧ session_ok (vars (h rs c k))) →
  server_ok s → server_ok (run_handler c h s).
Proof.
  intros Hh (Ht & Hs & Hc). unfold run_handler.
  destruct (sockets s !! c) as [sk|] eqn:E; [|done].
  destruct (Hh (ready_of s) (Ctx (sk_closure sk) (table s) (log s)))
    as [Ht' Hs']; simpl; eauto.
  split; [|split]; simpl; [done| |].
  - intros c' sk'. destruct (decide (c = c')) as [<-|Hne].
    + rewrite lookup_insert_eq. by intros [= <-].
    + rewrite lookup_insert_ne by done. apply Hs.
  - intros c' Hin. destruct (decide (c = c')) as [<-|Hne].
    + rewrite lookup_insert_eq. eauto.
    + rewrite lookup_insert_ne by done. by apply Hc.
Qed.

Lemma update_socket_ok c f s :
  (∀ sk, sk_closure (f sk) = sk_closure sk) →
  server_ok s → server_ok (update_socket c f s).
Proof.
  intros Hf (Ht & Hs & Hc). split; [|split]; simpl; [done| |].
  - intros c' sk'. rewrite lookup_alter. case_decide; [|apply Hs].
    subst. destruct (sockets s !! c') as [sk|] eqn:E; simpl; [|done].
    intros [= <-]. rewrite Hf. by eapply Hs.
  - intros c' Hin. rewrite lookup_alter. case_decide; [|by apply Hc].
    subst. destruct (Hc c' Hin) as [sk ->]. simpl. eauto.
Qed.

Lemma untrack_ok c s : server_ok s → server_ok (untrack c s).
Proof.
  intros (Ht & Hs & Hc). split; [|split]; simpl; [done..|].
  intros c' [_ Hin]%list_elem_of_filter. by apply Hc.
Qed.

Lemma terminate_closure sk : sk_closure (terminate sk) = sk_closure sk.
Proof. unfold terminate. by destruct (sk_readyState sk). Qed.

Lemma heartbeat_one_ok s c : server_ok s → server_ok (heartbeat_one s c).
Proof.
  intros (Ht & Hs & Hc). unfold heartbeat_one.
  destruct (sockets s !! c) as [sk|] eqn:E; [|done].
  destruct (sk_isAlive sk); simpl; (split; [|split]; simpl; [done| |]).
  all: intros c'; destruct (decide (c = c')) as [<-|Hne];
    rewrite ?lookup_insert_eq, ?lookup_insert_ne by done; eauto.
  - intros sk' [= <-]. simpl. by eapply Hs.
  - intros sk' [= <-]. rewrite terminate_closure. by eapply Hs.
Qed.

Lemma heartbeat_fold_ok (cs : list nat) s :
  server_ok s → server_ok (foldl heartbeat_one s cs).
Proof.
  revert s. induction cs as [|c cs IH]; intros s Hs; simpl; [done|].
  apply IH. by apply heartbeat_one_ok.
Qed.

Lemma step_ok s e : server_ok s → server_ok (step s e).
Proof.
  intros Hs. destruct e as [c|c data|c|c|c|c|]; simpl.
  - destruct (sockets s !! c) eqn:E; [done|].
    destruct Hs as (Ht & Hv & Hc). split; [|split]; simpl; [done| |].
    + intros c' sk'. destruct (decide (c = c')) as [<-|Hne].
      * rewrite lookup_insert_eq. intros [= <-]. by left.
      * rewrite lookup_insert_ne by done. apply Hv.
    + intros c' [Hin | ->%list_elem_of_singleton]%elem_of_app.
      * destruct (decide (c = c')) as [<-|Hne];
          rewrite ?lookup_insert_eq, ?lookup_insert_ne by done; eauto.
      * rewrite lookup_insert_eq. eauto.
  - destruct (tracked s c); [|done]. apply run_handler_ok; [|done].
    intros rs k. apply on_message_ok.
  - destruct (tracked s c); [|done]. by apply update_socket_ok.
  - destruct (tracked s c); [|done]. by apply update_socket_ok.
  - destruct (tracked s c); [|done]. apply run_handler_ok; [|done].
    intros rs k Hr Hk. unfold on_error. split.
    + by apply handleLeave_registry_ok.
    + rewrite handleLeave_session_ok by done. by left.
  - destruct (tracked s c); [|done]. apply run_handler_ok.
    + intros rs k Hr Hk. unfold on_close. split.
      * by apply handleLeave_registry_ok.
      * rewrite handleLeave_session_ok by done. by left.
    + apply untrack_ok. by apply update_socket_ok.
  - by apply heartbeat_fold_ok.
Qed.

Lemma run_ok evs s : server_ok s → server_ok (run s evs).
Proof.
  revert s. induction evs as [|e evs IH]; intros s Hs; simpl; [done|].
  apply IH. by apply step_ok.
Qed.

Lemma init_server_ok : server_ok init_server.
Proof.
  split; [|split]; simpl.
  - apply map_Forall_empty.
  - intros c sk. by rewrite lookup_empty.
  - intros c Hc. inversion Hc.
Qed.

(** *** Rooms appear only through a join *)






Lemma heartbeat_fold_table (cs : list nat) s :
  table (foldl heartbeat_one s cs) = table s.
Proof.
  revert s. induction cs as [|c cs IH]; intros s; simpl; [done|].
  rewrite IH. unfold heartbeat_one. destruct (sockets s !! c) as [sk|]; [|done].
  by destruct (sk_isAlive sk).
Qed.



(** ** Joining *)

Section Join.

Variable readyState : conn -> ready_state.
Variable ws : conn.

(** C2 (amended): a join carrying a non-empty room and id, aimed at a room
    that holds two participants neither of which is [id], is refused: the
    sender is sent exactly the capacity error and the target room keeps its
    two entries.  The sender's closure variables (and the whole table) are
    untouched when it has no current room or is already in the target
    room; when it is in another room, the leave procedure for that room
    has run before the capacity test, so its variables end cleared. *)
Theorem join_full_room_refused m room id (ps : list (string * nat)) k :
  m_room m = Some room → m_id m = Some id → room ≠ "" → id ≠ "" →
  rooms k !! room = Some ps → pm_size ps = 2 → pm_has id ps = false →
  let k' := handleJoin readyState ws m k in
  rooms k' !! room = Some ps ∧
  (currentRoom (vars k) = None ∨ currentRoom (vars k) = Some room →
   vars k' = vars k ∧ rooms k' = rooms k ∧
   wire k' = wire k ++ [Send ws room_full]) ∧
  (∀ cur, currentRoom (vars k) = Some cur → cur ≠ room →
          session_ok (vars k) →
          vars k' = fresh_session ∧
          k' = send ws room_full (handleLeave readyState k)).
Proof.
  intros Hm1 Hm2 Hr Hi Hps Hsz Hhas k'.
  assert (k' = send ws room_full (after_cleanup readyState room k)) as Hk'.
  { subst k'. apply (handleJoin_full readyState ws m room id ps); try done.
    - by rewrite after_cleanup_target.
    - lia. }
  split; [|split].
  - rewrite Hk'. simpl. by rewrite after_cleanup_target.
  - intros Hcur. rewrite Hk', after_cleanup_same by done. done.
  - intros cur Hcur Hne Hok.
    rewrite Hk', (after_cleanup_switch readyState room cur)
      by eauto using session_ok_room.
    split; [|done]. simpl. by apply handleLeave_session_ok.
Qed.


End Join.

(** A full room, a newcomer with no room of its own. *)
Lemma join_full_room_refused_witness :
  let k := Ctx fresh_session (<["room1" := [("alice", 0); ("bob", 1)]]> ∅) [] in
  let k' := handleJoin (λ _, OPEN) 2 (join "room1" "zed") k in
  rooms k' !! "room1" = Some [("alice", 0); ("bob", 1)] ∧
  (currentRoom (vars k) = None ∨ currentRoom (vars k) = Some "room1" →
   vars k' = vars k ∧ rooms k' = rooms k ∧
   wire k' = wire k ++ [Send 2 room_full]) ∧
  (∀ cur, currentRoom (vars k) = Some cur → cur ≠ "room1" →
          session_ok (vars k) →
          vars k' = fresh_session ∧
          k' = send 2 room_full (handleLeave (λ _, OPEN) k)).
Proof.
  intros k k'.
  apply (join_full_room_refused (λ _, OPEN) 2 (join "room1" "zed")
           "room1" "zed" [("alice", 0); ("bob", 1)] k);
    try reflexivity; discriminate.
Defined.

(** Against C2 as stated: socket 2 sits in "lobby" as "zed" and asks to join
    the full "room1".  It is refused with the capacity error and room1 is
    untouched, but the leave procedure has already run: its closure
    variables are cleared and "lobby" is gone. *)
Lemma join_full_room_clears_session :
  let s := run init_server paired_and_lobby in
  let s' := step s (Incoming 2 (Some (join "room1" "zed"))) in
  table s !! "room1" = Some [("alice", 0); ("bob", 1)] ∧
  closure_of s 2 = Session (Some "lobby") (Some "zed") true ∧
  log s' = log s ++ [Send 2 room_full] ∧
  table s' !! "room1" = table s !! "room1" ∧
  closure_of s' 2 = fresh_session ∧
  closure_of s' 2 ≠ closure_of s 2 ∧
  table s !! "lobby" = Some [("zed", 2)] ∧ table s' !! "lobby" = None.
Proof. vm_compute. repeat split; discriminate. Qed.



(** ** Relaying offers, answers and candidates *)

Section Relay.

Variable readyState : conn -> ready_state.

Lemma relay_handler_unfold kd m k :
  relay_handler kd readyState m k =
  relay readyState (relay_field kd m) (relay_out kd) k.
Proof. by destruct kd. Qed.

Lemma relay_spec field mk body room cid (ps : list (string * nat)) k :
  vars k = Session (Some room) cid true → room ≠ "" →
  field = Some body → truthy field = true →
  rooms k !! room = Some ps →
  relay readyState field mk k =
  Ctx (vars k) (rooms k)
      (wire k ++ map (λ w, Send w (mk body cid)) (recipients readyState cid ps)).
Proof.
  intros Hv Hr -> Ht Hps. unfold relay. rewrite Hv.
  cbn [currentRoom isAuthenticated clientId negb orb].
  apply str_truthy_true in Hr. rewrite Hr, Ht. cbn [negb].
  rewrite <- Hv. by apply broadcastToRoom_spec.
Qed.

Lemma relay_dropped_guard field mk k :
  isAuthenticated (vars k) = false ∨ currentRoom (vars k) = None ∨
  currentRoom (vars k) = Some "" ∨ truthy field = false →
  relay readyState field mk k = k.
Proof.
  unfold relay. intros [H|[H|[H|H]]].
  - rewrite H. by destruct (currentRoom (vars k)).
  - by rewrite H.
  - rewrite H. simpl. by rewrite orb_true_r.
  - destruct (currentRoom (vars k)); [|done]. destruct (_ || _); [done|].
    destruct field; [|done]. by rewrite H.
Qed.


Lemma on_message_relay ws kd m k :
  m_type m = Some (relay_type kd) →
  on_message readyState ws (Some m) k = relay_handler kd readyState m k.
Proof. intros Ht. unfold on_message. rewrite Ht. by destruct kd. Qed.

(** C7: an offer, answer or ice-candidate that arrives while the
    connection is not authenticated or has no current room, or whose
    payload field is absent (or falsy), changes nothing: the closure
    variables, the room table and the log of sends are all as before, so
    there is no reply and no relay.  This holds for the handler and for the
    message callback that dispatches to it. *)
Theorem relay_silently_dropped ws kd m k :
  isAuthenticated (vars k) = false ∨ currentRoom (vars k) = None ∨
  currentRoom (vars k) = Some "" ∨ relay_field kd m = None ∨
  truthy (relay_field kd m) = false →
  relay_handler kd readyState m k = k ∧
  (m_type m = Some (relay_type kd) →
   on_message readyState ws (Some m) k = k).
Proof.
  intros H.
  assert (relay_handler kd readyState m k = k) as Hk.
  { rewrite relay_handler_unfold. apply relay_dropped_guard.
    destruct H as [H|[H|[H|[H|H]]]]; auto.
    right; right; right. by rewrite H. }
  split; [done|]. intros Ht. by rewrite (on_message_relay ws kd).
Qed.

(** C9: two messages that agree on every field except [targetId] get the
    same treatment from [handleOffer], and from the whole message callback:
    same sends, same state.  An accepted offer goes to every OPEN socket of
    the sender's current room other than the entry under the sender's own
    id, whatever [targetId] names. *)
Theorem offer_ignores_targetId ws m1 m2 k :
  with_targetId None m1 = with_targetId None m2 →
  handleOffer readyState m1 k = handleOffer readyState m2 k ∧
  on_message readyState ws (Some m1) k = on_message readyState ws (Some m2) k ∧
  (∀ body room cid (ps : list (string * nat)),
     vars k = Session (Some room) cid true → room ≠ "" →
     m_offer m1 = Some body → truthy (Some body) = true →
     rooms k !! room = Some ps →
     handleOffer readyState m2 k =
       Ctx (vars k) (rooms k)
           (wire k ++ map (λ w, Send w (MOffer body cid))
                          (recipients readyState cid ps))).
Proof.
  intros Heq. destruct m1 as [t1 r1 i1 o1 a1 c1 x1], m2 as [t2 r2 i2 o2 a2 c2 x2].
  injection Heq as -> -> -> -> -> ->.
  split; [done|]. split; [done|].
  intros body room cid ps Hv Hr Hf Ht Hps. simpl in Hf.
  rewrite handleOffer_relay. simpl.
  apply (relay_spec _ MOffer body room cid ps k); try done.
  by rewrite Hf.
Qed.

End Relay.



Lemma relay_silently_dropped_witness :
  let k := Ctx fresh_session (<["room1" := [("bob", 1)]]> ∅) [] in
  let m := ice_candidate (JStr "candidate:1") in
  relay_handler KIceCandidate (λ _, OPEN) m k = k ∧
  (m_type m = Some "ice-candidate" → on_message (λ _, OPEN) 0 (Some m) k = k).
Proof.
  intros k m. apply (relay_silently_dropped (λ _, OPEN) 0 KIceCandidate).
  left. reflexivity.
Defined.

Lemma offer_ignores_targetId_witness :
  let k := Ctx (Session (Some "room1") (Some "alice") true)
               (<["room1" := [("alice", 0); ("bob", 1)]]> ∅) [] in
  let m1 := offer (sdp "offer" "v=0") None in
  let m2 := offer (sdp "offer" "v=0") (Some (JStr "alice")) in
  handleOffer (λ _, OPEN) m1 k = handleOffer (λ _, OPEN) m2 k ∧
  on_message (λ _, OPEN) 0 (Some m1) k = on_message (λ _, OPEN) 0 (Some m2) k ∧
  handleOffer (λ _, OPEN) m2 k =
    Ctx (vars k) (rooms k)
        (wire k ++ [Send 1 (MOffer (sdp "offer" "v=0") (Some "alice"))]).
Proof.
  intros k m1 m2.
  destruct (offer_ignores_targetId (λ _, OPEN) 0 m1 m2 k eq_refl)
    as (H1 & H2 & H3).
  split; [exact H1|]. split; [exact H2|].
  apply (H3 (sdp "offer" "v=0") "room1" (Some "alice")
            [("alice", 0); ("bob", 1)]);
    try reflexivity; discriminate.
Defined.

(** ** Leaving, closing, reconnecting *)

Section Leave.

Variable readyState : conn -> ready_state.

Lemma two_entries id (ps : list (string * nat)) :
  NoDup (pm_keys ps) → pm_size ps = 2 → pm_has id ps = true →
  ∃ h0 other h, other ≠ id ∧
    (ps = [(id, h0); (other, h)] ∨ ps = [(other, h); (id, h0)]).
Proof.
  destruct ps as [|[k1 h1] [|[k2 h2] [|? ?]]]; try discriminate.
  simpl. intros Hnd _ Hhas.
  apply NoDup_cons in Hnd as [Hk _].
  assert (k1 ≠ k2) as Hne by (intros ->; apply Hk; left).
  destruct (String.eqb_spec k1 id) as [->|H1].
  - exists h1, k2, h2. split; [done | by left].
  - destruct (String.eqb_spec k2 id) as [->|H2]; [|discriminate].
    exists h2, k1, h1. split; [done | by right].
Qed.

Lemma one_entry id (ps : list (string * nat)) :
  pm_size ps = 1 → pm_has id ps = true → ∃ h0, ps = [(id, h0)].
Proof.
  destruct ps as [|[k1 h1] [|? ?]]; try discriminate.
  simpl. intros _. case_eqb; [eauto | discriminate].
Qed.

(** C5 (amended): the close callback, the error callback and an explicit
    leave message all run [handleLeave], and from any state the closure can
    be in they end with the closure variables cleared.  When the
    connection's id is registered in its current room: if the room has one
    entry the room is removed from the table and nothing is sent; if it
    has two, the room is left with the other entry alone and that entry's
    socket is sent exactly one peer-left naming the departing id - provided
    it is OPEN; when it is not, nothing is sent. *)
Theorem close_is_leave ws k :
  session_ok (vars k) →
  on_close readyState k = handleLeave readyState k ∧
  on_error readyState k = handleLeave readyState k ∧
  on_message readyState ws (Some leave) k = handleLeave readyState k ∧
  vars (on_close readyState k) = fresh_session ∧
  (∀ room id (ps : list (string * nat)),
     vars k = Session (Some room) (Some id) true →
     rooms k !! room = Some ps → NoDup (pm_keys ps) → pm_has id ps = true →
     (pm_size ps = 1 →
      on_close readyState k =
        Ctx fresh_session (delete room (rooms k)) (wire k)) ∧
     (pm_size ps = 2 →
      ∃ other h, other ≠ id ∧ pm_get other ps = Some h ∧
        on_close readyState k =
          Ctx fresh_session (<[room := [(other, h)]]> (rooms k))
              (wire k ++ if is_open readyState h
                         then [Send h (MPeerLeft id)] else []))).
Proof.
  intros Hok. split; [done|]. split; [done|]. split; [done|].
  split; [by apply handleLeave_session_ok|].
  intros room id ps Hv Hps Hnd Hhas. unfold on_close.
  destruct k as [v t w]. simpl in *. subst v.
  destruct Hok as [?|(r & i & Hr & Hi & [= <- <-])]; [done|].
  rewrite handleLeave_spec, Hps by done. split.
  - intros Hsz. destruct (one_entry id ps Hsz Hhas) as [h0 ->]. simpl.
    rewrite String.eqb_refl. simpl.
    rewrite bool_decide_eq_false_2 by naive_solver. simpl.
    by rewrite app_nil_r.
  - intros Hsz.
    destruct (two_entries id ps Hnd Hsz Hhas)
      as (h0 & other & h & Hne & Hshape).
    assert (String.eqb other id = false) as Heq by (by apply String.eqb_neq).
    assert (String.eqb id other = false) as Heq'
      by (apply String.eqb_neq; congruence).
    exists other, h. split; [done|].
    destruct Hshape as [-> | ->]; simpl;
      rewrite ?String.eqb_refl, ?Heq, ?Heq'; simpl;
      rewrite (bool_decide_eq_false_2 (Some id ≠ Some id)) by naive_solver;
      rewrite (bool_decide_eq_true_2 (Some other ≠ Some id)) by congruence;
      simpl; (split; [done|]); by destruct (is_open readyState h).
Qed.

Variable ws : conn.

Lemma registry_ok_lookup rs room id (ps : list (string * nat)) :
  registry_ok rs → rs !! room = Some ps → pm_has id ps = true →
  room ≠ "" ∧ id ≠ "" ∧ NoDup (pm_keys ps).
Proof.
  intros Hok Hps Hhas. destruct (Hok room ps Hps) as (Hr & Hnd & Hne & _).
  split; [done|]. split; [|done].
  rewrite Forall_forall in Hne. apply Hne. by apply pm_has_keys.
Qed.

Lemma pm_has_set id w (ps : list (string * nat)) :
  pm_has id (pm_set id w ps) = true.
Proof. apply pm_get_has. rewrite pm_get_set_eq. eauto. Qed.

Lemma pm_set_twice id w (ps : list (string * nat)) :
  pm_set id w (pm_set id w ps) = pm_set id w ps.
Proof.
  induction ps as [|[k v] rest IH]; simpl.
  - by rewrite String.eqb_refl.
  - destruct (String.eqb_spec k id) as [->|Hk]; simpl.
    + by rewrite String.eqb_refl.
    + destruct (String.eqb_spec k id); [done|]. by rewrite IH.
Qed.

Lemma rejoin_lookup m room id (ps : list (string * nat)) k :
  m_room m = Some room → m_id m = Some id → room ≠ "" → id ≠ "" →
  rooms k !! room = Some ps → pm_has id ps = true →
  handleJoin readyState ws m k =
  notify_pair readyState ws room id (pm_set id ws ps)
    (Ctx (Session (Some room) (Some id) true)
         (<[room := pm_set id ws ps]> (rooms (after_cleanup readyState room k)))
         (wire (after_cleanup readyState room k) ++
          [Send ws (MJoined room id (pm_size (pm_set id ws ps)))])).
Proof.
  intros Hm1 Hm2 Hr Hi Hps Hhas.
  pose proof (after_cleanup_target readyState room k) as Ht.
  rewrite Hps in Ht.
  rewrite (handleJoin_accept readyState ws m room id k Hm1 Hm2 Hr Hi).
  - by rewrite Ht.
  - rewrite Ht. simpl. rewrite Hhas. by rewrite andb_false_r.
Qed.

(** C6: a join whose id is already a key of the target room stores the
    sender's socket under that key, in place: the room's keys (and so its
    size) are exactly as before, the key now maps to the sender's socket,
    every other key maps to what it did, and joining once more changes
    nothing further in the room. *)
Theorem rejoin_replaces_handle m room id (ps : list (string * nat)) k :
  registry_ok (rooms k) →
  m_room m = Some room → m_id m = Some id →
  rooms k !! room = Some ps → pm_has id ps = true →
  let k' := handleJoin readyState ws m k in
  rooms k' !! room = Some (pm_set id ws ps) ∧
  pm_keys (pm_set id ws ps) = pm_keys ps ∧
  getRoomSize (rooms k') room = getRoomSize (rooms k) room ∧
  pm_get id (pm_set id ws ps) = Some ws ∧
  (∀ id', id' ≠ id → pm_get id' (pm_set id ws ps) = pm_get id' ps) ∧
  rooms (handleJoin readyState ws m k') !! room = rooms k' !! room.
Proof.
  intros Hok Hm1 Hm2 Hps Hhas k'.
  destruct (registry_ok_lookup _ _ _ _ Hok Hps Hhas) as (Hr & Hi & Hnd).
  assert (rooms k' !! room = Some (pm_set id ws ps)) as Hk'.
  { subst k'. rewrite (rejoin_lookup m room id ps k) by done.
    rewrite notify_pair_rooms. simpl. by rewrite lookup_insert_eq. }
  split; [done|]. split; [by apply pm_set_has|].
  split.
  { unfold getRoomSize. rewrite Hk', Hps, pm_set_size. by rewrite Hhas. }
  split; [apply pm_get_set_eq|].
  split; [intros id' Hne; by apply pm_get_set_ne|].
  rewrite (rejoin_lookup m room id (pm_set id ws ps) k')
    by (try done; apply pm_has_set).
  rewrite notify_pair_rooms. simpl.
  by rewrite lookup_insert_eq, pm_set_twice, Hk'.
Qed.


End Leave.

Lemma recipients_includes rs ex (ps : list (string * nat)) id h :
  (id, h) ∈ ps → Some id ≠ ex → is_open rs h = true →
  h ∈ recipients rs ex ps.
Proof.
  intros Hin Hne Hop. induction ps as [|[id0 w0] rest IH]; simpl.
  { inversion Hin. }
  apply elem_of_cons in Hin as [[= <- <-] | Hin].
  - rewrite bool_decide_eq_true_2, Hop by done. simpl. left.
  - destruct (_ && _); [right|]; by apply IH.
Qed.

(** ** The heartbeat *)

Section Heartbeat.

Variable c : conn.

Lemma heartbeat_one_clients s c0 : clients (heartbeat_one s c0) = clients s.
Proof.
  unfold heartbeat_one. destruct (sockets s !! c0) as [sk|]; [|done].
  by destruct (sk_isAlive sk).
Qed.

Lemma heartbeat_fold_clients (cs : list nat) s :
  clients (foldl heartbeat_one s cs) = clients s.
Proof.
  revert s. induction cs as [|c0 cs IH]; intros s; simpl; [done|].
  by rewrite IH, heartbeat_one_clients.
Qed.

Lemma heartbeat_one_log s c0 : ∃ l, log (heartbeat_one s c0) = log s ++ l.
Proof.
  unfold heartbeat_one. destruct (sockets s !! c0) as [sk|].
  - destruct (sk_isAlive sk); simpl; eauto.
  - exists []. by rewrite app_nil_r.
Qed.

Lemma heartbeat_fold_log (cs : list nat) s :
  ∃ l, log (foldl heartbeat_one s cs) = log s ++ l.
Proof.
  revert s. induction cs as [|c0 cs IH]; intros s; simpl.
  - exists []. by rewrite app_nil_r.
  - destruct (IH (heartbeat_one s c0)) as [l ->].
    destruct (heartbeat_one_log s c0) as [l0 ->].
    exists (l0 ++ l). by rewrite app_assoc.
Qed.

Lemma terminate_down sk :
  sk_isAlive sk = false →
  sk_isAlive (terminate sk) = false ∧ sk_readyState (terminate sk) ≠ OPEN.
Proof.
  intros Ha. unfold terminate.
  destruct (sk_readyState sk) eqn:E; simpl; rewrite ?E; by split.
Qed.

Lemma heartbeat_one_down s c0 sk :
  sockets s !! c = Some sk → sk_isAlive sk = false ∨ c0 = c →
  ∃ sk', sockets (heartbeat_one s c0) !! c = Some sk' ∧
         sk_isAlive sk' = false.
Proof.
  intros Hsk Hor. unfold heartbeat_one.
  destruct (decide (c0 = c)) as [->|Hne].
  - rewrite Hsk. destruct (sk_isAlive sk) eqn:Ha; simpl;
      rewrite lookup_insert_eq; eexists; split; try done.
    by apply terminate_down.
  - destruct Hor as [Ha|?]; [|done].
    destruct (sockets s !! c0) as [sk0|]; [|eauto].
    destruct (sk_isAlive sk0); simpl; rewrite lookup_insert_ne by done; eauto.
Qed.

Lemma heartbeat_fold_down (cs : list nat) s sk :
  sockets s !! c = Some sk → sk_isAlive sk = false ∨ c ∈ cs →
  ∃ sk', sockets (foldl heartbeat_one s cs) !! c = Some sk' ∧
         sk_isAlive sk' = false.
Proof.
  revert s sk. induction cs as [|c0 cs IH]; intros s sk Hsk Hor; simpl.
  - destruct Hor as [?|Hin]; [eauto | inversion Hin].
  - destruct (decide (c0 = c)) as [->|Hne].
    + destruct (heartbeat_one_down s c sk Hsk) as (sk' & Hsk' & Ha'); eauto.
    + destruct Hor as [Ha|Hin].
      * destruct (heartbeat_one_down s c0 sk Hsk) as (sk' & Hsk' & Ha'); eauto.
      * apply elem_of_cons in Hin as [?|Hin]; [done|].
        assert (sockets (heartbeat_one s c0) !! c = Some sk) as Hsame.
        { unfold heartbeat_one. destruct (sockets s !! c0) as [sk0|]; [|done].
          destruct (sk_isAlive sk0); simpl; by rewrite lookup_insert_ne. }
        eauto.
Qed.

Lemma heartbeat_one_reaped s c0 : reaped c s → reaped c (heartbeat_one s c0).
Proof.
  intros (sk & Hsk & Ha & Hr). unfold heartbeat_one, reaped.
  destruct (decide (c0 = c)) as [->|Hne].
  - rewrite Hsk, Ha. simpl. rewrite lookup_insert_eq. eexists. split; [done|].
    by apply terminate_down.
  - destruct (sockets s !! c0) as [sk0|]; [|eauto].
    destruct (sk_isAlive sk0); simpl; rewrite lookup_insert_ne by done; eauto.
Qed.

Lemma heartbeat_fold_reaped (cs : list nat) s :
  reaped c s → reaped c (foldl heartbeat_one s cs).
Proof.
  revert s. induction cs as [|c0 cs IH]; intros s H; simpl; [done|].
  by apply IH, heartbeat_one_reaped.
Qed.

Lemma heartbeat_fold_terminates (cs : list nat) s sk :
  sockets s !! c = Some sk → sk_isAlive sk = false → c ∈ cs →
  reaped c (foldl heartbeat_one s cs) ∧
  ∃ l, log (foldl heartbeat_one s cs) = log s ++ l ∧ Terminate c ∈ l.
Proof.
  revert s sk. induction cs as [|c0 cs IH]; intros s sk Hsk Ha Hin; simpl.
  { inversion Hin. }
  destruct (decide (c0 = c)) as [->|Hne].
  - assert (heartbeat_one s c =
            Server (table s) (<[c := terminate sk]> (sockets s)) (clients s)
                   (log s ++ [Terminate c])) as Hone.
    { unfold heartbeat_one. by rewrite Hsk, Ha. }
    rewrite Hone. split.
    + apply heartbeat_fold_reaped. exists (terminate sk). simpl.
      rewrite lookup_insert_eq. split; [done|]. by apply terminate_down.
    + destruct (heartbeat_fold_log cs
                  (Server (table s) (<[c := terminate sk]> (sockets s))
                          (clients s) (log s ++ [Terminate c]))) as [l Hl].
      rewrite Hl. simpl. exists (Terminate c :: l).
      split; [by rewrite <- app_assoc | left].
  - apply elem_of_cons in Hin as [?|Hin]; [done|].
    assert (sockets (heartbeat_one s c0) !! c = Some sk) as Hsame.
    { unfold heartbeat_one. destruct (sockets s !! c0) as [sk0|]; [|done].
      destruct (sk_isAlive sk0); simpl; by rewrite lookup_insert_ne. }
    destruct (IH _ _ Hsame Ha Hin) as (Hr & l & Hl & Hterm).
    split; [done|]. destruct (heartbeat_one_log s c0) as [l0 Hl0].
    exists (l0 ++ l). rewrite Hl, Hl0. split; [by rewrite app_assoc|].
    apply elem_of_app. by right.
Qed.

Lemma run_handler_socket c0 h s sk :
  sockets s !! c = Some sk →
  ∃ sk', sockets (run_handler c0 h s) !! c = Some sk' ∧
         sk_isAlive sk' = sk_isAlive sk ∧
         sk_readyState sk' = sk_readyState sk.
Proof.
  intros Hsk. unfold run_handler.
  destruct (sockets s !! c0) as [sk0|] eqn:E; [|eauto]. simpl.
  destruct (decide (c0 = c)) as [->|Hne].
  - rewrite lookup_insert_eq. assert (sk0 = sk) as -> by congruence. eauto.
  - rewrite lookup_insert_ne by done. eauto.
Qed.

Lemma run_handler_clients c0 h s : clients (run_handler c0 h s) = clients s.
Proof. unfold run_handler. by destruct (sockets s !! c0). Qed.

(** Between heartbeats, only a pong raises the flag again and only the
    close event stops the tracking. *)
Lemma step_quiet s e : quiet c e → flagged c s → flagged c (step s e).
Proof.
  intros [Hpong Hclosed] (Hin & sk & Hsk & Ha). unfold flagged.
  destruct e as [c0|c0 data|c0|c0|c0|c0|]; simpl.
  - destruct (sockets s !! c0) as [sk0|] eqn:E; simpl.
    + eauto.
    + split; [apply elem_of_app; by left|].
      rewrite lookup_insert_ne by congruence. eauto.
  - destruct (tracked s c0); [|by eauto].
    rewrite run_handler_clients. split; [done|].
    destruct (run_handler_socket c0 (λ rs w, on_message rs w data) s sk Hsk)
      as (sk' & ? & Ha' & _). exists sk'. split; [done | congruence].
  - destruct (tracked s c0); [|by eauto]. simpl. split; [done|].
    assert (c0 ≠ c) by congruence. rewrite lookup_alter_ne by done. eauto.
  - destruct (tracked s c0); [|by eauto]. simpl. split; [done|].
    rewrite lookup_alter. case_decide; [|eauto]. subst. rewrite Hsk. simpl.
    eauto.
  - destruct (tracked s c0); [|by eauto].
    rewrite run_handler_clients. split; [done|].
    destruct (run_handler_socket c0 (λ rs _, on_error rs) s sk Hsk)
      as (sk' & ? & Ha' & _). exists sk'. split; [done | congruence].
  - destruct (tracked s c0); [|by eauto].
    assert (c0 ≠ c) by congruence.
    rewrite run_handler_clients. simpl. split.
    + apply list_elem_of_filter. split; [congruence | done].
    + set (s1 := untrack c0 (update_socket c0 (set_ready CLOSED) s)).
      assert (sockets s1 !! c = Some sk) as Hsk1
        by (simpl; by rewrite lookup_alter_ne).
      destruct (run_handler_socket c0 (λ rs _, on_close rs) s1 sk Hsk1)
        as (sk' & ? & Ha' & _). exists sk'. split; [done | congruence].
  - unfold heartbeat. rewrite heartbeat_fold_clients. split; [done|].
    eapply heartbeat_fold_down; eauto.
Qed.

Lemma run_quiet evs s :
  Forall (quiet c) evs → flagged c s → flagged c (run s evs).
Proof.
  revert s. induction evs as [|e evs IH]; intros s Hq Hf; simpl; [done|].
  apply Forall_cons in Hq as [He Hq]. by apply IH, step_quiet.
Qed.

(** C8 (amended): a tracked connection that gets no pong and no close
    event between two firings of the heartbeat has [terminate] called on
    it by the second firing at the latest, whatever else happens in
    between, and its socket is then no longer OPEN.  The close callback
    that follows, like an explicit leave message, runs [handleLeave] on
    the connection's closure: the closure is cleared, the entry under the
    connection's current id is removed from its current room, the room is
    deleted when that leaves it empty, and the log grows by exactly one
    peer-left naming that id for every other entry of the room whose socket
    is OPEN, in the room's order - so each such participant is sent it. *)
Theorem heartbeat_reaps_silent_connection s evs :
  server_ok s → c ∈ clients s → Forall (quiet c) evs →
  let s1 := run (step s Tick) evs in
  let s2 := step s1 Tick in
  (∃ l, log s2 = log s1 ++ l ∧ Terminate c ∈ l) ∧
  ready_of s2 c ≠ OPEN ∧
  (∀ s3 sk, sockets s3 !! c = Some sk → c ∈ clients s3 →
     let gone := untrack c (update_socket c (set_ready CLOSED) s3) in
     let by_close :=
       handleLeave (ready_of gone) (Ctx (sk_closure sk) (table s3) (log s3)) in
     let by_leave :=
       handleLeave (ready_of s3) (Ctx (sk_closure sk) (table s3) (log s3)) in
     let s4 := step s3 (Closed c) in
     let s4' := step s3 (Incoming c (Some leave)) in
     (table s4 = rooms by_close ∧ log s4 = wire by_close ∧
      closure_of s4 c = vars by_close ∧ c ∉ clients s4) ∧
     (table s4' = rooms by_leave ∧ log s4' = wire by_leave ∧
      closure_of s4' c = vars by_leave) ∧
     (∀ R A (ps : list (string * nat)),
        R ≠ "" → A ≠ "" →
        sk_closure sk = Session (Some R) (Some A) true →
        table s3 !! R = Some ps →
        closure_of s4 c = fresh_session ∧
        table s4 !! R =
          (if pm_size (pm_delete A ps) =? 0 then None
           else Some (pm_delete A ps)) ∧
        log s4 = log s3 ++ map (λ h, Send h (MPeerLeft A))
                               (recipients (ready_of gone) (Some A) ps) ∧
        (∀ id h, (id, h) ∈ ps → id ≠ A → ready_of gone h = OPEN →
                 Send h (MPeerLeft A) ∈ log s4))).
Proof.
  intros Hok Hin Hq s1 s2.
  destruct Hok as (_ & _ & Hsock). destruct (Hsock c Hin) as [sk0 Hsk0].
  assert (flagged c (step s Tick)) as Hf0.
  { simpl. unfold heartbeat, flagged. rewrite heartbeat_fold_clients.
    split; [done|]. eapply heartbeat_fold_down; eauto. }
  pose proof (run_quiet evs _ Hq Hf0) as (Hin1 & sk1 & Hsk1 & Ha1).
  fold s1 in Hin1, Hsk1.
  destruct (heartbeat_fold_terminates (clients s1) s1 sk1 Hsk1 Ha1 Hin1)
    as ((sk2 & Hsk2 & _ & Hr2) & Hlog).
  split; [exact Hlog|]. split.
  { unfold ready_of, s2. simpl. unfold heartbeat. by rewrite Hsk2. }
  intros s3 sk Hsk Hin3 gone by_close by_leave s4 s4'.
  assert (tracked s3 c = true) as Htr by (by apply bool_decide_eq_true_2).
  assert (sockets gone !! c = Some (set_ready CLOSED sk)) as Hgone.
  { simpl. rewrite lookup_alter_eq, Hsk. done. }
  assert (s4 = Server (rooms by_close)
                 (<[c := Socket CLOSED (sk_isAlive sk) (vars by_close)]>
                    (sockets gone))
                 (clients gone) (wire by_close)) as Hs4.
  { unfold s4. simpl. rewrite Htr. unfold run_handler. fold gone.
    rewrite Hgone. done. }
  assert (s4' = Server (rooms by_leave)
                  (<[c := Socket (sk_readyState sk) (sk_isAlive sk)
                                 (vars by_leave)]> (sockets s3))
                  (clients s3) (wire by_leave)) as Hs4'.
  { unfold s4'. simpl. rewrite Htr. unfold run_handler. rewrite Hsk. done. }
  split; [|split].
  - rewrite Hs4. simpl. repeat split.
    + unfold closure_of. simpl. by rewrite lookup_insert_eq.
    + intros [? _]%list_elem_of_filter. done.
  - rewrite Hs4'. simpl. repeat split.
    unfold closure_of. simpl. by rewrite lookup_insert_eq.
  - intros R A ps HR HA Hcl Hps.
    assert (closure_of s4 c = vars by_close) as ->.
    { rewrite Hs4. unfold closure_of. simpl. by rewrite lookup_insert_eq. }
    assert (table s4 = rooms by_close) as -> by (by rewrite Hs4).
    assert (log s4 = wire by_close) as Hlog4 by (by rewrite Hs4).
    rewrite Hlog4.
    unfold by_close. rewrite Hcl, handleLeave_spec, Hps by done. simpl.
    split; [done|]. split.
    { destruct (pm_size (pm_delete A ps) =? 0).
      - by rewrite lookup_delete_eq.
      - by rewrite lookup_insert_eq. }
    split; [done|].
    intros id h Hmem Hne Hop. apply elem_of_app. right.
    apply list_elem_of_fmap. exists h. split; [done|].
    apply (recipients_includes _ _ _ id); [done | congruence |].
    unfold is_open. by rewrite Hop.
Qed.

End Heartbeat.

(** ** Concrete runs *)

Lemma reachable_registry_ok evs : registry_ok (table (run init_server evs)).
Proof. apply (run_ok evs init_server init_server_ok). Qed.

Lemma run_ticks_table n s : table (run s (repeat Tick n)) = table s.
Proof.
  revert s. induction n as [|n IH]; intros s; simpl; [done|].
  rewrite IH. unfold heartbeat. apply heartbeat_fold_table.
Qed.

(** The scenario of the protocol description: alice, bob, a refused third
    party, and alice leaving. *)
Example pairing_scenario :
  let s := run init_server
             (paired ++ [Connect 2; Incoming 2 (Some (join "room1" "zed"));
                         Incoming 0 (Some leave)]) in
  log s = [Send 0 (MJoined "room1" "alice" 1);
           Send 1 (MJoined "room1" "bob" 2);
           Send 0 (MPeerJoined "bob" true);
           Send 1 (MPeerJoined "alice" false);
           Send 2 room_full;
           Send 1 (MPeerLeft "alice")] ∧
  table s !! "room1" = Some [("bob", 1)] ∧
  getRoomSize (table s) "room1" = 1.
Proof. vm_compute. repeat split. Qed.

Lemma close_is_leave_witness :
  let k := Ctx (Session (Some "room1") (Some "alice") true)
               (<["room1" := [("alice", 0); ("bob", 1)]]> ∅) [] in
  vars (on_close (λ _, OPEN) k) = fresh_session ∧
  ∃ other h, other ≠ "alice" ∧
    pm_get other [("alice", 0); ("bob", 1)] = Some h ∧
    on_close (λ _, OPEN) k =
      Ctx fresh_session (<["room1" := [(other, h)]]> (rooms k))
          (wire k ++ if is_open (λ _, OPEN) h
                     then [Send h (MPeerLeft "alice")] else []).
Proof.
  intros k.
  destruct (close_is_leave (λ _, OPEN) 0 k) as (_ & _ & _ & Hv & Hin).
  { right. exists "room1", "alice". split; [discriminate|].
    split; [discriminate | reflexivity]. }
  split; [exact Hv|].
  destruct (Hin "room1" "alice" [("alice", 0); ("bob", 1)]) as [_ H2];
    try reflexivity.
  { apply NoDup_cons. split; [|apply NoDup_singleton].
    intros H%list_elem_of_singleton. discriminate. }
  exact (H2 eq_refl).
Defined.

(** Against C5 as stated.  First: socket 0 still holds room1/alice in its
    closure, but that entry was taken over and removed long ago and room1
    now holds carol and dave; when socket 0 closes, both of them are sent
    peer-left and the room stays at two.  Second: alice and bob are paired
    and bob's transport has started closing when alice's close event fires;
    room1 is left with bob alone and no peer-left is sent. *)
Lemma close_without_single_peer_left :
  (let s := run init_server stale_alice in
   let s' := step s (Closed 0) in
   closure_of s 0 = Session (Some "room1") (Some "alice") true ∧
   table s !! "room1" = Some [("carol", 2); ("dave", 3)] ∧
   log s' = log s ++ [Send 2 (MPeerLeft "alice"); Send 3 (MPeerLeft "alice")] ∧
   table s' !! "room1" = Some [("carol", 2); ("dave", 3)]) ∧
  (let s := run init_server bob_closing in
   let s' := step s (Closed 0) in
   closure_of s 0 = Session (Some "room1") (Some "alice") true ∧
   table s !! "room1" = Some [("alice", 0); ("bob", 1)] ∧
   log s' = log s ∧
   table s' !! "room1" = Some [("bob", 1)]).
Proof. vm_compute. repeat split. Qed.

Lemma rejoin_replaces_handle_witness :
  let k := Ctx fresh_session (table (run init_server paired)) [] in
  let k' := handleJoin (λ _, OPEN) 7 (join "room1" "alice") k in
  let ps := [("alice", 0); ("bob", 1)] in
  rooms k' !! "room1" = Some (pm_set "alice" 7 ps) ∧
  pm_keys (pm_set "alice" 7 ps) = pm_keys ps ∧
  getRoomSize (rooms k') "room1" = getRoomSize (rooms k) "room1" ∧
  pm_get "alice" (pm_set "alice" 7 ps) = Some 7 ∧
  (∀ id', id' ≠ "alice" → pm_get id' (pm_set "alice" 7 ps) = pm_get id' ps) ∧
  rooms (handleJoin (λ _, OPEN) 7 (join "room1" "alice") k') !! "room1" =
    rooms k' !! "room1".
Proof.
  intros k k' ps.
  apply (rejoin_replaces_handle (λ _, OPEN) 7 (join "room1" "alice")
           "room1" "alice" ps k);
    [apply reachable_registry_ok | reflexivity..].
Defined.


Lemma heartbeat_reaps_silent_connection_witness :
  let s := run init_server [Connect 0; Incoming 0 (Some (join "room1" "alice"))] in
  let evs := [Incoming 0 (Some (offer (sdp "offer" "v=0") None)); Connect 1] in
  let s1 := run (step s Tick) evs in
  let s2 := step s1 Tick in
  (∃ l, log s2 = log s1 ++ l ∧ Terminate 0 ∈ l) ∧ ready_of s2 0 ≠ OPEN.
Proof.
  intros s evs s1 s2.
  destruct (heartbeat_reaps_silent_connection 0 s evs) as (H1 & H2 & _).
  - apply (run_ok _ init_server init_server_ok).
  - left.
  - repeat constructor; discriminate.
  - split; [exact H1 | exact H2].
Defined.

(** Against C8 as stated: socket 0 joined room1 as alice and then again as
    bob before falling silent.  Two heartbeats terminate it and its close
    event runs the leave procedure, which removes bob only.  The entry
    alice -> socket 0 stays in room1 although that socket is closed and no
    longer tracked; no number of further heartbeats removes it, and it
    still counts against the capacity: once carol has joined, dave is
    refused. *)
Lemma dead_entry_keeps_slot :
  let s := run init_server ghost_alice in
  (Terminate 0 ∈ log s) ∧ ready_of s 0 = CLOSED ∧ (0 ∉ clients s) ∧
  closure_of s 0 = fresh_session ∧
  table s !! "room1" = Some [("alice", 0)] ∧
  (∀ n, table (run s (repeat Tick n)) !! "room1" = Some [("alice", 0)]) ∧
  (let s' := run s [Connect 1; Incoming 1 (Some (join "room1" "carol"));
                    Connect 2] in
   let s'' := step s' (Incoming 2 (Some (join "room1" "dave"))) in
   table s' !! "room1" = Some [("alice", 0); ("carol", 1)] ∧
   log s'' = log s' ++ [Send 2 room_full]).
Proof.
  intros s.
  assert (table s !! "room1" = Some [("alice", 0)]) as Ht by (by vm_compute).
  split; [|split; [|split; [|split; [|split; [|split]]]]].
  - vm_compute. repeat first [by left | right].
  - by vm_compute.
  - vm_compute. intros H. inversion H.
  - by vm_compute.
  - exact Ht.
  - intros n. by rewrite run_ticks_table.
  - vm_compute. split; reflexivity.
Qed.


(** ** Further properties of the handlers *)

Section More.

Variable readyState : conn -> ready_state.

Lemma is_open_OPEN w : is_open readyState w = true ↔ readyState w = OPEN.
Proof. unfold is_open. destruct (readyState w); naive_solver. Qed.

Lemma elem_of_recipients ex (ps : list (string * nat)) w :
  w ∈ recipients readyState ex ps ↔
  ∃ id, (id, w) ∈ ps ∧ Some id ≠ ex ∧ is_open readyState w = true.
Proof.
  induction ps as [|[id0 w0] rest IH]; simpl.
  - split; [intros H; inversion H | intros (? & H & _); inversion H].
  - destruct (bool_decide (Some id0 ≠ ex) && is_open readyState w0) eqn:E.
    + apply andb_true_iff in E as [E1%bool_decide_eq_true_1 E2].
      rewrite elem_of_cons, IH. split.
      * intros [-> | (id & Hin & ? & ?)].
        -- exists id0. split; [left | done].
        -- exists id. split; [by right | done].
      * intros (id & Hin & ? & ?).
        apply elem_of_cons in Hin as [[= -> ->] | Hin]; [by left|].
        right. by exists id.
    + rewrite IH. split.
      * intros (id & Hin & ? & ?). exists id. split; [by right | done].
      * intros (id & Hin & Hne & Hop).
        apply elem_of_cons in Hin as [[= -> ->] | Hin]; [|by exists id].
        rewrite Hop, andb_true_r in E.
        apply bool_decide_eq_false_1 in E. done.
Qed.

Lemma recipients_length ex (ps : list (string * nat)) :
  length (recipients readyState ex ps) ≤ pm_size ps.
Proof.
  unfold pm_size. induction ps as [|[id0 w0] rest IH]; simpl; [done|].
  destruct (_ && _); simpl; lia.
Qed.

Lemma recipients_filter ex (ps : list (string * nat)) :
  recipients readyState ex ps =
  (filter (λ p, Some p.1 ≠ ex ∧ is_open readyState p.2 = true) ps).*2.
Proof.
  induction ps as [|[id0 w0] rest IH]; simpl; [done|].
  rewrite filter_cons. simpl.
  destruct (bool_decide (Some id0 ≠ ex) && is_open readyState w0) eqn:E.
  - apply andb_true_iff in E as [E1%bool_decide_eq_true_1 E2].
    rewrite decide_True by done. simpl. by rewrite IH.
  - rewrite decide_False; [done|]. intros [H1 H2].
    rewrite bool_decide_eq_true_2, H2 in E by done. discriminate.
Qed.

(** X1: [broadcastToRoom] on a room that exists changes nothing but the
    log, to which it appends, in the room's order, exactly one send of the
    message for each entry of the room whose id is not the excluded one and
    whose socket is OPEN - one per entry, also when two entries hold the
    same socket - and nothing for any other entry. *)
Theorem broadcast_reaches_open_others room m ex (ps : list (string * nat)) k :
  rooms k !! room = Some ps →
  let k' := broadcastToRoom readyState room m ex k in
  vars k' = vars k ∧ rooms k' = rooms k ∧
  wire k' =
    wire k ++
    map (λ p, Send p.2 m)
        (filter (λ p, Some p.1 ≠ ex ∧ is_open readyState p.2 = true) ps).
Proof.
  intros Hps k'. subst k'. rewrite (broadcastToRoom_spec _ _ _ _ _ _ Hps).
  simpl. split; [done|]. split; [done|].
  rewrite recipients_filter. f_equal.
  induction (filter _ ps) as [|[i w] l IH]; [done|].
  cbn [fmap list_fmap map snd]. f_equal. exact IH.
Qed.

Variable ws : conn.

(** X2: a join request whose room or id is missing or empty is answered
    with the validation error and nothing else happens: the closure and
    the table are as before, so a connection that is in a room stays in it. *)
Theorem invalid_join_changes_nothing m k :
  m_type m = Some "join" →
  m_room m = None ∨ m_room m = Some "" ∨ m_id m = None ∨ m_id m = Some "" →
  let k' := on_message readyState ws (Some m) k in
  vars k' = vars k ∧ rooms k' = rooms k ∧
  wire k' = wire k ++ [Send ws (MError "Room name and ID are required")].
Proof.
  intros Ht H k'. subst k'. unfold on_message. rewrite Ht. simpl.
  rewrite handleJoin_invalid; [done|].
  intros room id Hr Hi. rewrite Hr, Hi in H.
  destruct H as [H|[H|[H|H]]]; try discriminate; injection H; auto.
Qed.



(** X5: a join under an id that is already one of the two entries of the
    room (a reconnect into a paired room) keeps both entries in place with
    the sender's socket under that id, and runs the pairing notifications
    again: the sender is sent joined with participants = 2, the other
    entry's socket is sent peer-joined with shouldCreateOffer = true if it
    is OPEN, and the sender is sent peer-joined with shouldCreateOffer =
    false. *)
Theorem reconnect_into_pair_notifies_again m room id other h0 h
        (ps : list (string * nat)) k :
  m_room m = Some room → m_id m = Some id → room ≠ "" → id ≠ "" →
  other ≠ id → other ≠ "" →
  rooms k !! room = Some ps →
  ps = [(id, h0); (other, h)] ∨ ps = [(other, h); (id, h0)] →
  let k' := handleJoin readyState ws m k in
  rooms k' !! room = Some (pm_set id ws ps) ∧
  pm_get other (pm_set id ws ps) = Some h ∧
  wire k' =
    wire (after_cleanup readyState room k) ++
    [Send ws (MJoined room id 2)] ++
    (if is_open readyState h then [Send h (MPeerJoined id true)] else []) ++
    [Send ws (MPeerJoined other false)].
Proof.
  intros Hm1 Hm2 Hr Hi Hne Ho Hps Hshape k'. subst k'.
  pose proof (after_cleanup_target readyState room k) as Ht.
  rewrite Hps in Ht.
  assert (String.eqb other id = false) as Heq by (by apply String.eqb_neq).
  assert (String.eqb id other = false) as Heq'
    by (apply String.eqb_neq; congruence).
  assert (pm_has id ps = true) as Hhas.
  { destruct Hshape as [-> | ->]; simpl; by rewrite ?String.eqb_refl, ?Heq. }
  rewrite (handleJoin_accept readyState ws m room id k Hm1 Hm2 Hr Hi)
    by (rewrite Ht; simpl; by rewrite Hhas, andb_false_r).
  rewrite Ht. apply str_truthy_true in Ho.
  destruct Hshape as [-> | ->]; simpl;
    rewrite ?String.eqb_refl, ?Heq, ?Heq'; unfold notify_pair; simpl;
    rewrite ?String.eqb_refl, ?Heq, ?Heq', ?Ho;
    unfold sendToClient; simpl; rewrite !lookup_insert_eq; simpl;
    rewrite ?String.eqb_refl, ?Heq, ?Heq';
    destruct (is_open readyState h); simpl; rewrite ?lookup_insert_eq;
    (split; [done|]); (split; [done|]); by rewrite <- !app_assoc.
Qed.



(** X7: the message callback touches at most two rooms, the one the
    closure names and the one a join asks for; every other room of the
    table is exactly as before, whatever the frame. *)
Theorem other_rooms_untouched data k r :
  currentRoom (vars k) ≠ Some r →
  (∀ m, data = Some m → m_room m ≠ Some r) →
  rooms (on_message readyState ws data k) !! r = rooms k !! r.
Proof.
  intros Hcur Hm. unfold on_message. destruct data as [m|]; [|done].
  specialize (Hm m eq_refl).
  destruct (m_type m) as [t|]; [|done].
  destruct (String.eqb t "join").
  { destruct (m_room m) as [room|] eqn:Hm1; [|by unfold handleJoin; rewrite Hm1].
    destruct (m_id m) as [id|] eqn:Hm2;
      [|by unfold handleJoin; rewrite Hm1, Hm2].
    destruct (decide (room = "")) as [->|Hr].
    { rewrite handleJoin_invalid; [done|]. intros ??; rewrite Hm1. naive_solver. }
    destruct (decide (id = "")) as [->|Hi].
    { rewrite handleJoin_invalid; [done|]. intros ??; rewrite Hm2. naive_solver. }
    assert (rooms (after_cleanup readyState room k) !! r = rooms k !! r) as H1.
    { unfold after_cleanup.
      destruct (currentRoom (vars k)) as [cur|] eqn:Ec; [|done].
      destruct (_ && _); [|done]. apply handleLeave_other_room. by rewrite Ec. }
    set (k1 := after_cleanup readyState room k) in *.
    destruct ((2 <=? pm_size (default [] (rooms k1 !! room))) &&
              negb (pm_has id (default [] (rooms k1 !! room)))) eqn:Hcap.
    - apply andb_true_iff in Hcap as [Hsz Hhas].
      destruct (rooms k1 !! room) as [ps|] eqn:E; [|done].
      change (default [] (Some ps)) with ps in *.
      apply Nat.leb_le in Hsz. apply negb_true_iff in Hhas.
      rewrite (handleJoin_full readyState ws m room id ps k) by done. done.
    - rewrite (handleJoin_accept readyState ws m room id k) by done.
      rewrite notify_pair_rooms. simpl. fold k1.
      rewrite lookup_insert_ne; [done | congruence]. }
  repeat (match goal with |- context [if ?b then _ else _] => destruct b end);
    try done.
  - by rewrite handleOffer_relay, relay_rooms.
  - by rewrite handleAnswer_relay, relay_rooms.
  - by rewrite handleIceCandidate_relay, relay_rooms.
  - by apply handleLeave_other_room.
Qed.


End More.

(** ** Who is ever sent anything *)

Section Politeness.

Variable readyState : conn -> ready_state.
Variable ws : conn.

Lemma answers_refl k : answers readyState ws k k.
Proof. exists []. split; [by rewrite app_nil_r | constructor]. Qed.

Lemma answers_trans k1 k2 k3 :
  answers readyState ws k1 k2 → answers readyState ws k2 k3 →
  answers readyState ws k1 k3.
Proof.
  intros (l1 & H1 & P1) (l2 & H2 & P2). exists (l1 ++ l2).
  split; [by rewrite H2, H1, app_assoc | by apply Forall_app].
Qed.

Lemma answers_send w m k :
  w = ws ∨ is_open readyState w = true →
  answers readyState ws k (send w m k).
Proof.
  intros H. exists [Send w m]. split; [done|].
  apply Forall_singleton. eauto.
Qed.

Lemma broadcastToRoom_answers room m ex k :
  answers readyState ws k (broadcastToRoom readyState room m ex k).
Proof.
  destruct (rooms k !! room) as [ps|] eqn:E.
  - rewrite (broadcastToRoom_spec _ _ _ _ _ _ E).
    exists (map (λ w, Send w m) (recipients readyState ex ps)).
    split; [done|]. apply Forall_forall.
    intros e (w & -> & Hin)%list_elem_of_fmap.
    apply elem_of_recipients in Hin as (id & _ & _ & Hop). eauto.
  - rewrite broadcastToRoom_absent by done. apply answers_refl.
Qed.

Lemma sendToClient_answers room id m k :
  answers readyState ws k (sendToClient readyState room id m k).
Proof.
  unfold sendToClient. destruct (rooms k !! room) as [ps|]; [|apply answers_refl].
  destruct (pm_get id ps) as [w|]; [|apply answers_refl].
  destruct (is_open readyState w) eqn:E; [|apply answers_refl].
  apply answers_send. by right.
Qed.

Lemma handleLeave_answers k :
  answers readyState ws k (handleLeave readyState k).
Proof.
  destruct k as [[cr ci a] rs w].
  destruct cr as [room|]; [|apply answers_refl].
  destruct ci as [id|]; [|apply answers_refl].
  destruct (decide (room = "")) as [->|Hr]; [apply answers_refl|].
  destruct (decide (id = "")) as [->|Hi].
  { unfold handleLeave. simpl. rewrite orb_true_r. apply answers_refl. }
  rewrite handleLeave_spec by done.
  destruct (rs !! room) as [ps|] eqn:E;
    [|exists []; split; [simpl; by rewrite app_nil_r | constructor]].
  exists (map (λ h, Send h (MPeerLeft id)) (recipients readyState (Some id) ps)).
  split; [done|]. apply Forall_forall.
  intros e (h & -> & Hin)%list_elem_of_fmap.
  apply elem_of_recipients in Hin as (? & _ & _ & Hop). eauto.
Qed.

Lemma after_cleanup_answers room k :
  answers readyState ws k (after_cleanup readyState room k).
Proof.
  unfold after_cleanup. destruct (currentRoom (vars k)); [|apply answers_refl].
  destruct (_ && _); [apply handleLeave_answers | apply answers_refl].
Qed.

Lemma notify_pair_answers room id (ps : list (string * nat)) k :
  answers readyState ws k (notify_pair readyState ws room id ps k).
Proof.
  unfold notify_pair. destruct (pm_size ps =? 2); [|apply answers_refl].
  destruct (find_other id (pm_keys ps)) as [other|]; [|apply answers_refl].
  destruct (str_truthy other); [|apply answers_refl].
  eapply answers_trans; [apply sendToClient_answers|].
  apply answers_send. by left.
Qed.

Lemma handleJoin_answers m k :
  answers readyState ws k (handleJoin readyState ws m k).
Proof.
  assert (∀ x, answers readyState ws k (send ws x k)) as Hself
    by (intros x; apply answers_send; by left).
  destruct (m_room m) as [room|] eqn:Hm1;
    [|unfold handleJoin; rewrite Hm1; apply Hself].
  destruct (m_id m) as [id|] eqn:Hm2;
    [|unfold handleJoin; rewrite Hm1, Hm2; apply Hself].
  destruct (decide (room = "")) as [->|Hr].
  { rewrite handleJoin_invalid; [apply Hself|].
    intros ??; rewrite Hm1. naive_solver. }
  destruct (decide (id = "")) as [->|Hi].
  { rewrite handleJoin_invalid; [apply Hself|].
    intros ??; rewrite Hm2. naive_solver. }
  pose proof (after_cleanup_answers room k) as H1.
  set (k1 := after_cleanup readyState room k) in *.
  destruct ((2 <=? pm_size (default [] (rooms k1 !! room))) &&
            negb (pm_has id (default [] (rooms k1 !! room)))) eqn:Hcap.
  - apply andb_true_iff in Hcap as [Hsz Hhas].
    destruct (rooms k1 !! room) as [ps|] eqn:E; [|done].
    change (default [] (Some ps)) with ps in *.
    apply Nat.leb_le in Hsz. apply negb_true_iff in Hhas.
    rewrite (handleJoin_full readyState ws m room id ps k) by done.
    eapply answers_trans; [exact H1|]. apply answers_send. by left.
  - rewrite (handleJoin_accept readyState ws m room id k) by done. fold k1.
    eapply answers_trans; [|apply notify_pair_answers].
    eapply answers_trans; [exact H1|].
    exists [Send ws (MJoined room id
                       (pm_size (pm_set id ws (default [] (rooms k1 !! room)))))].
    split; [done|]. apply Forall_singleton. eauto.
Qed.

Lemma relay_answers field mk k :
  answers readyState ws k (relay readyState field mk k).
Proof.
  unfold relay. destruct (currentRoom (vars k)); [|apply answers_refl].
  destruct (_ || _); [apply answers_refl|].
  destruct field; [|apply answers_refl].
  destruct (negb _); [apply answers_refl | apply broadcastToRoom_answers].
Qed.

(** X9: whatever frame arrives, and on close or error, the callbacks only
    ever append sends to the log, and each of them goes either to the
    socket of the connection being served or to a socket whose readyState
    is OPEN: a peer that is not OPEN is never sent anything. *)
Theorem never_sends_to_closed_peer data k :
  (∃ l, wire (on_message readyState ws data k) = wire k ++ l ∧
        Forall (λ e, ∃ w m, e = Send w m ∧
                            (w = ws ∨ readyState w = OPEN)) l) ∧
  (∃ l, wire (on_close readyState k) = wire k ++ l ∧
        Forall (λ e, ∃ w m, e = Send w m ∧ readyState w = OPEN) l) ∧
  on_error readyState k = on_close readyState k.
Proof.
  split; [|split; [|done]].
  - assert (answers readyState ws k (on_message readyState ws data k)) as H.
    { unfold on_message. destruct data as [m|];
        [|apply answers_send; by left].
      destruct (m_type m) as [t|]; [|apply answers_refl].
      repeat (match goal with
              | |- context [if ?b then _ else _] => destruct b
              end); try apply answers_refl.
      - apply handleJoin_answers.
      - rewrite handleOffer_relay. apply relay_answers.
      - rewrite handleAnswer_relay. apply relay_answers.
      - rewrite handleIceCandidate_relay. apply relay_answers.
      - apply handleLeave_answers. }
    destruct H as (l & Hl & P). exists l. split; [done|].
    eapply Forall_impl; [exact P|]. simpl.
    intros e (w & m & -> & [-> | ?%is_open_OPEN]); eauto.
  - unfold on_close. destruct k as [[cr ci a] rs w].
    assert (∃ l : list effect, w = w ++ l ∧
              Forall (λ e, ∃ w0 m, e = Send w0 m ∧ readyState w0 = OPEN) l)
      as Hnil by (exists []; split; [by rewrite app_nil_r | constructor]).
    destruct cr as [room|]; [|done]. destruct ci as [id|]; [|done].
    destruct (decide (room = "")) as [->|Hr]; [done|].
    destruct (decide (id = "")) as [->|Hi].
    { unfold handleLeave. simpl. by rewrite orb_true_r. }
    rewrite handleLeave_spec by done.
    destruct (rs !! room) as [ps|] eqn:E; [|done]. simpl.
    eexists. split; [done|]. apply Forall_forall.
    intros e (h & -> & Hin)%list_elem_of_fmap.
    apply elem_of_recipients in Hin as (? & _ & _ & Hop%is_open_OPEN). eauto.
Qed.

(** X10: switching rooms is leaving and then joining.  For a connection
    that is in a room and asks, with a valid request, to join another one,
    the join handler ends in the very state that an explicit leave followed
    by the same join would reach. *)
Theorem switch_is_leave_then_join m room id cur k :
  session_ok (vars k) → currentRoom (vars k) = Some cur → cur ≠ room →
  m_room m = Some room → m_id m = Some id → room ≠ "" → id ≠ "" →
  handleJoin readyState ws m k =
  handleJoin readyState ws m (handleLeave readyState k).
Proof.
  intros Hok Hcur Hne Hm1 Hm2 Hr Hi.
  assert (after_cleanup readyState room k = handleLeave readyState k) as H1.
  { apply (after_cleanup_switch readyState room cur); try done.
    by apply (session_ok_room (vars k)). }
  assert (after_cleanup readyState room (handleLeave readyState k) =
          handleLeave readyState k) as H2.
  { apply after_cleanup_same. left. by rewrite handleLeave_session_ok. }
  set (kl := handleLeave readyState k) in *.
  destruct ((2 <=? pm_size (default [] (rooms kl !! room))) &&
            negb (pm_has id (default [] (rooms kl !! room)))) eqn:Hcap.
  - apply andb_true_iff in Hcap as [Hsz Hhas].
    destruct (rooms kl !! room) as [ps|] eqn:E; [|done].
    change (default [] (Some ps)) with ps in *.
    apply Nat.leb_le in Hsz. apply negb_true_iff in Hhas.
    rewrite (handleJoin_full readyState ws m room id ps k),
            (handleJoin_full readyState ws m room id ps kl);
      rewrite ?H1, ?H2; done.
  - rewrite (handleJoin_accept readyState ws m room id k Hm1 Hm2 Hr Hi),
            (handleJoin_accept readyState ws m room id kl Hm1 Hm2 Hr Hi);
      rewrite ?H1, ?H2; done.
Qed.

End Politeness.


(** ** Further invariants of the server *)







Lemma heartbeat_one_sockets s c0 w :
  is_Some (sockets s !! w) → is_Some (sockets (heartbeat_one s c0) !! w).
Proof.
  intros H. unfold heartbeat_one. destruct (sockets s !! c0) as [sk|]; [|done].
  destruct (sk_isAlive sk); simpl;
    (destruct (decide (c0 = w)) as [->|?];
     [rewrite lookup_insert_eq; eauto | by rewrite lookup_insert_ne]).
Qed.





Lemma tracked_true s c : tracked s c = true ↔ c ∈ clients s.
Proof. unfold tracked. apply bool_decide_eq_true. Qed.

Lemma run_handler_other c c0 h s :
  c ≠ c0 → sockets (run_handler c0 h s) !! c = sockets s !! c.
Proof.
  intros Hne. unfold run_handler. destruct (sockets s !! c0); [|done].
  simpl. by rewrite lookup_insert_ne.
Qed.

Lemma heartbeat_one_other s c0 c :
  c ≠ c0 → sockets (heartbeat_one s c0) !! c = sockets s !! c.
Proof.
  intros Hne. unfold heartbeat_one. destruct (sockets s !! c0) as [sk|]; [|done].
  destruct (sk_isAlive sk); simpl; by rewrite lookup_insert_ne.
Qed.

Lemma heartbeat_fold_other (cs : list nat) s c :
  c ∉ cs → sockets (foldl heartbeat_one s cs) !! c = sockets s !! c.
Proof.
  revert s. induction cs as [|c0 cs IH]; intros s Hc; simpl; [done|].
  apply not_elem_of_cons in Hc as [Hne Hc].
  rewrite IH by done. by apply heartbeat_one_other.
Qed.

Lemma step_cleared s e :
  server_ok s → closed_are_cleared s → closed_are_cleared (step s e).
Proof.
  intros Hok Hcl. destruct e as [c0|c0 data|c0|c0|c0|c0|]; simpl.
  - destruct (sockets s !! c0) eqn:E; [done|].
    intros c sk Hsk Hnot. simpl in *.
    apply not_elem_of_app in Hnot as [Hnot Hne].
    rewrite lookup_insert_ne in Hsk by set_solver. by apply (Hcl c).
  - destruct (tracked s c0) eqn:Ht; [|done]. apply tracked_true in Ht.
    intros c sk Hsk Hnot. rewrite run_handler_clients in Hnot.
    rewrite run_handler_other in Hsk by congruence. by apply (Hcl c).
  - destruct (tracked s c0) eqn:Ht; [|done]. apply tracked_true in Ht.
    intros c sk Hsk Hnot. simpl in *.
    rewrite lookup_alter_ne in Hsk by congruence. by apply (Hcl c).
  - destruct (tracked s c0) eqn:Ht; [|done]. apply tracked_true in Ht.
    intros c sk Hsk Hnot. simpl in *.
    rewrite lookup_alter_ne in Hsk by congruence. by apply (Hcl c).
  - destruct (tracked s c0) eqn:Ht; [|done]. apply tracked_true in Ht.
    intros c sk Hsk Hnot. rewrite run_handler_clients in Hnot.
    rewrite run_handler_other in Hsk by congruence. by apply (Hcl c).
  - destruct (tracked s c0) eqn:Ht; [|done]. apply tracked_true in Ht.
    intros c sk Hsk Hnot. rewrite run_handler_clients in Hnot. simpl in Hnot.
    destruct (decide (c = c0)) as [->|Hne].
    + destruct Hok as (_ & Hs & Hc). destruct (Hc c0 Ht) as [sk0 Hsk0].
      unfold run_handler in Hsk. simpl in Hsk.
      rewrite lookup_alter_eq, Hsk0 in Hsk. simpl in Hsk.
      rewrite lookup_insert_eq in Hsk. injection Hsk as <-. simpl.
      split; [done|]. unfold on_close.
      apply (handleLeave_session_ok _ (Ctx (sk_closure sk0) (table s) (log s))).
      by apply (Hs c0).
    + rewrite run_handler_other in Hsk by done. simpl in Hsk.
      rewrite lookup_alter_ne in Hsk by done. apply (Hcl c sk Hsk).
      intros Hin. apply Hnot. by apply list_elem_of_filter.
  - intros c sk Hsk Hnot. unfold heartbeat in *.
    rewrite heartbeat_fold_clients in Hnot.
    rewrite heartbeat_fold_other in Hsk by done. by apply (Hcl c).
Qed.

(** X12: a connection that has closed holds nothing back: after any
    sequence of events, every socket that is no longer tracked is CLOSED
    and its closure is cleared (no current room, no id, not
    authenticated). *)
Theorem closed_connection_is_cleared (evs : list event) c sk :
  let s := run init_server evs in
  sockets s !! c = Some sk → c ∉ clients s →
  sk_readyState sk = CLOSED ∧ sk_closure sk = fresh_session.
Proof.
  intros s.
  assert (∀ evs s0, server_ok s0 → closed_are_cleared s0 →
                    closed_are_cleared (run s0 evs)) as Hrun.
  { clear. intros evs. induction evs as [|e evs IH]; intros s0 H1 H2; simpl;
      [done|]. apply IH; [by apply step_ok | by apply step_cleared]. }
  apply (Hrun evs init_server init_server_ok).
  intros ????. simpl in *. by rewrite lookup_empty in *.
Qed.

Lemma step_clients_nodup s e :
  server_ok s → NoDup (clients s) → NoDup (clients (step s e)).
Proof.
  intros (_ & _ & Hc) Hnd. destruct e as [c0|c0 data|c0|c0|c0|c0|]; simpl.
  - destruct (sockets s !! c0) eqn:E; [done|]. simpl.
    apply NoDup_app. split; [done|]. split; [|apply NoDup_singleton].
    intros x Hx ->%list_elem_of_singleton.
    destruct (Hc c0 Hx) as [? Hsome]. congruence.
  - destruct (tracked s c0); [|done]. by rewrite run_handler_clients.
  - by destruct (tracked s c0).
  - by destruct (tracked s c0).
  - destruct (tracked s c0); [|done]. by rewrite run_handler_clients.
  - destruct (tracked s c0); [|done]. rewrite run_handler_clients. simpl.
    by apply NoDup_filter.
  - unfold heartbeat. by rewrite heartbeat_fold_clients.
Qed.

Lemma run_clients_nodup evs : NoDup (clients (run init_server evs)).
Proof.
  assert (∀ evs s0, server_ok s0 → NoDup (clients s0) →
                    NoDup (clients (run s0 evs))) as Hrun.
  { clear. intros evs. induction evs as [|e evs IH]; intros s0 H1 H2; simpl;
      [done|]. apply IH; [by apply step_ok | by apply step_clients_nodup]. }
  apply (Hrun evs init_server init_server_ok). constructor.
Qed.

Section Responsive.

Variable c : conn.

(** A calm event keeps [c] tracked with its liveness flag up. *)
Lemma step_calm s e :
  calm c e →
  (c ∈ clients s ∧ ∃ sk, sockets s !! c = Some sk ∧ sk_isAlive sk = true) →
  c ∈ clients (step s e) ∧
  ∃ sk, sockets (step s e) !! c = Some sk ∧ sk_isAlive sk = true.
Proof.
  intros [Htick Hclosed] (Hin & sk & Hsk & Ha).
  destruct e as [c0|c0 data|c0|c0|c0|c0|]; simpl; [| | | | | |done].
  - destruct (sockets s !! c0) as [sk0|] eqn:E; simpl; [by eauto|].
    split; [apply elem_of_app; by left|].
    rewrite lookup_insert_ne by congruence. eauto.
  - destruct (tracked s c0); [|by eauto].
    rewrite run_handler_clients. split; [done|].
    destruct (run_handler_socket c c0 (λ rs w, on_message rs w data) s sk Hsk)
      as (sk' & ? & Ha' & _). exists sk'. split; [done | congruence].
  - destruct (tracked s c0); [|by eauto]. simpl. split; [done|].
    rewrite lookup_alter. case_decide; [|eauto]. subst. rewrite Hsk. simpl.
    eauto.
  - destruct (tracked s c0); [|by eauto]. simpl. split; [done|].
    rewrite lookup_alter. case_decide; [|eauto]. subst. rewrite Hsk. simpl.
    eauto.
  - destruct (tracked s c0); [|by eauto].
    rewrite run_handler_clients. split; [done|].
    destruct (run_handler_socket c c0 (λ rs _, on_error rs) s sk Hsk)
      as (sk' & ? & Ha' & _). exists sk'. split; [done | congruence].
  - destruct (tracked s c0); [|by eauto].
    assert (c0 ≠ c) by congruence.
    rewrite run_handler_clients. simpl. split.
    + apply list_elem_of_filter. split; [congruence | done].
    + set (s1 := untrack c0 (update_socket c0 (set_ready CLOSED) s)).
      assert (sockets s1 !! c = Some sk) as Hsk1
        by (simpl; by rewrite lookup_alter_ne).
      destruct (run_handler_socket c c0 (λ rs _, on_close rs) s1 sk Hsk1)
        as (sk' & ? & Ha' & _). exists sk'. split; [done | congruence].
Qed.

Lemma heartbeat_fold_skips (cs : list nat) s :
  c ∉ cs →
  ∃ l, log (foldl heartbeat_one s cs) = log s ++ l ∧
       (Ping c ∉ l) ∧ (Terminate c ∉ l).
Proof.
  revert s. induction cs as [|c0 cs IH]; intros s Hc; simpl.
  - exists []. split; [by rewrite app_nil_r|]. split; intros H; inversion H.
  - apply not_elem_of_cons in Hc as [Hne Hc].
    destruct (IH (heartbeat_one s c0) Hc) as (l & Hl & Hp & Ht).
    assert (∃ l0, log (heartbeat_one s c0) = log s ++ l0 ∧
                  (Ping c ∉ l0) ∧ (Terminate c ∉ l0)) as (l0 & Hl0 & Hp0 & Ht0).
    { unfold heartbeat_one. destruct (sockets s !! c0) as [sk0|].
      - destruct (sk_isAlive sk0); simpl; eexists; (split; [done|]);
          split; intros [=]%list_elem_of_singleton; done.
      - exists []. split; [by rewrite app_nil_r|].
        split; intros H; inversion H. }
    exists (l0 ++ l). rewrite Hl, Hl0, app_assoc. split; [done|].
    split; intros [?|?]%elem_of_app; done.
Qed.

Lemma heartbeat_fold_alive (cs : list nat) s sk :
  NoDup cs → c ∈ cs → sockets s !! c = Some sk → sk_isAlive sk = true →
  (∃ l, log (foldl heartbeat_one s cs) = log s ++ l ∧
        Ping c ∈ l ∧ (Terminate c ∉ l)) ∧
  sockets (foldl heartbeat_one s cs) !! c = Some (set_alive false sk).
Proof.
  revert s. induction cs as [|c0 cs IH]; intros s Hnd Hin Hsk Ha; simpl.
  { inversion Hin. }
  apply NoDup_cons in Hnd as [Hc0 Hnd].
  destruct (decide (c0 = c)) as [->|Hne].
  - assert (heartbeat_one s c =
            Server (table s) (<[c := set_alive false sk]> (sockets s))
                   (clients s) (log s ++ [Ping c])) as Hone.
    { unfold heartbeat_one. by rewrite Hsk, Ha. }
    rewrite Hone.
    destruct (heartbeat_fold_skips cs
                (Server (table s) (<[c := set_alive false sk]> (sockets s))
                        (clients s) (log s ++ [Ping c])) Hc0)
      as (l & Hl & Hp & Ht).
    split.
    + exists (Ping c :: l). rewrite Hl. simpl.
      split; [by rewrite <- app_assoc|]. split; [left|].
      intros [[=]|?]%elem_of_cons. done.
    + rewrite heartbeat_fold_other by done. simpl. by rewrite lookup_insert_eq.
  - apply elem_of_cons in Hin as [?|Hin]; [done|].
    assert (sockets (heartbeat_one s c0) !! c = Some sk) as Hsame
      by (rewrite heartbeat_one_other by done; done).
    destruct (IH _ Hnd Hin Hsame Ha) as ((l & Hl & Hp & Ht) & Hafter).
    split; [|done].
    assert (∃ l0, log (heartbeat_one s c0) = log s ++ l0 ∧
                  (Terminate c ∉ l0)) as (l0 & Hl0 & Ht0).
    { unfold heartbeat_one. destruct (sockets s !! c0) as [sk0|].
      - destruct (sk_isAlive sk0); simpl; eexists; (split; [done|]);
          intros [=]%list_elem_of_singleton; done.
      - exists []. split; [by rewrite app_nil_r|]. intros H; inversion H. }
    exists (l0 ++ l). rewrite Hl, Hl0, app_assoc. split; [done|].
    split; [apply elem_of_app; by right|].
    intros [?|?]%elem_of_app; done.
Qed.

(** X13: a connection that answers the probe is not reaped.  In any state
    the server can reach, once the pong of a tracked connection has been
    handled, and whatever follows short of its close event, the next
    heartbeat pings the connection and does not terminate it; its
    readyState is left as it was. *)
Theorem pong_saves_connection (evs0 evs : list event) :
  let s := run init_server evs0 in
  c ∈ clients s → Forall (calm c) evs →
  let s1 := run (step s (Pong c)) evs in
  let s2 := step s1 Tick in
  (∃ l, log s2 = log s1 ++ l ∧ Ping c ∈ l ∧ (Terminate c ∉ l)) ∧
  ready_of s2 c = ready_of s1 c.
Proof.
  intros s Hin Hcalm s1 s2.
  pose proof (run_ok evs0 init_server init_server_ok) as Hok. fold s in Hok.
  destruct Hok as (Hreg & Hsess & Hsock). destruct (Hsock c Hin) as [sk0 Hsk0].
  assert (c ∈ clients (step s (Pong c)) ∧
          ∃ sk, sockets (step s (Pong c)) !! c = Some sk ∧ sk_isAlive sk = true)
    as Hup.
  { simpl. apply tracked_true in Hin as Htr. rewrite Htr. simpl.
    apply tracked_true in Htr. split; [done|].
    rewrite lookup_alter_eq, Hsk0. simpl. eauto. }
  assert (∀ evs s0, Forall (calm c) evs →
            (c ∈ clients s0 ∧
             ∃ sk, sockets s0 !! c = Some sk ∧ sk_isAlive sk = true) →
            c ∈ clients (run s0 evs) ∧
            ∃ sk, sockets (run s0 evs) !! c = Some sk ∧ sk_isAlive sk = true)
    as Hrun.
  { clear. intros evs. induction evs as [|e evs IH]; intros s0 Hq H; simpl;
      [done|]. apply Forall_cons in Hq as [He Hq]. by apply IH, step_calm. }
  destruct (Hrun evs _ Hcalm Hup) as (Hin1 & sk1 & Hsk1 & Ha1). fold s1 in Hin1, Hsk1.
  assert (NoDup (clients s1)) as Hnd.
  { unfold s1. change (step s (Pong c)) with (run s [Pong c]).
    unfold s, run. rewrite <- !foldl_app. apply run_clients_nodup. }
  destruct (heartbeat_fold_alive (clients s1) s1 sk1 Hnd Hin1 Hsk1 Ha1)
    as (Hlog & Hafter).
  split; [exact Hlog|].
  unfold ready_of, s2. simpl. unfold heartbeat. by rewrite Hafter, Hsk1.
Qed.

End Responsive.


Lemma heartbeat_one_closure s c0 c :
  closure_of (heartbeat_one s c0) c = closure_of s c.
Proof.
  unfold heartbeat_one, closure_of.
  destruct (sockets s !! c0) as [sk|] eqn:E; [|done].
  destruct (sk_isAlive sk); simpl;
    (destruct (decide (c0 = c)) as [->|?];
     [rewrite lookup_insert_eq, E; by rewrite ?terminate_closure
     | by rewrite lookup_insert_ne]).
Qed.

Lemma heartbeat_one_probe s c0 c :
  c ≠ c0 → probe (heartbeat_one s c0) c = probe s c.
Proof. intros Hne. unfold probe. by rewrite heartbeat_one_other. Qed.

Lemma heartbeat_fold_probes (cs : list nat) s :
  NoDup cs → (∀ c, c ∈ cs → is_Some (sockets s !! c)) →
  (∀ c, closure_of (foldl heartbeat_one s cs) c = closure_of s c) ∧
  log (foldl heartbeat_one s cs) = log s ++ map (probe s) cs.
Proof.
  revert s. induction cs as [|c0 cs IH]; intros s Hnd Hs; simpl.
  { split; [done|]. by rewrite app_nil_r. }
  apply NoDup_cons in Hnd as [Hc0 Hnd].
  destruct (IH (heartbeat_one s c0) Hnd) as (Hcl & Hl).
  { intros c Hc. apply heartbeat_one_sockets, Hs. by right. }
  split; [intros c; by rewrite Hcl, heartbeat_one_closure|].
  destruct (Hs c0) as [sk Hsk]; [left|].
  assert (log (heartbeat_one s c0) = log s ++ [probe s c0]) as He.
  { unfold heartbeat_one, probe. rewrite Hsk. by destruct (sk_isAlive sk). }
  rewrite Hl, He, <- app_assoc. simpl. do 2 f_equal.
  apply map_ext_in. intros c Hc%list_elem_of_In.
  apply heartbeat_one_probe. by intros ->.
Qed.

(** X14: one firing of the heartbeat, in a well-formed state, appends to
    the log exactly one entry per tracked client, in the clients' order: a
    ping for a client whose liveness flag was up when the firing started, a
    terminate for one whose flag was down.  It appends nothing else - no
    message is sent - and it leaves the room table, the set of tracked
    clients and every closure untouched. *)
Theorem heartbeat_only_probes s :
  server_ok s → NoDup (clients s) →
  let s' := step s Tick in
  table s' = table s ∧ clients s' = clients s ∧
  (∀ c, closure_of s' c = closure_of s c) ∧
  log s' = log s ++ map (probe s) (clients s).
Proof.
  intros (_ & _ & Hc) Hnd s'. subst s'. simpl. unfold heartbeat.
  split; [apply heartbeat_fold_table|].
  split; [apply heartbeat_fold_clients|].
  by apply heartbeat_fold_probes.
Qed.

(** X15: an error event followed by the close event of the same
    connection leaves only once.  The leave procedure that the close
    callback runs after the error callback has run finds the closure
    cleared: it changes neither the room table nor the log, so the peers
    are not notified a second time. *)
Theorem close_after_error_is_silent s c :
  server_ok s →
  let s1 := step s (Failed c) in
  let s2 := step s1 (Closed c) in
  table s2 = table s1 ∧ log s2 = log s1 ∧
  (c ∈ clients s → closure_of s1 c = fresh_session ∧ (c ∉ clients s2)).
Proof.
  intros Hok s1 s2. subst s1 s2. simpl.
  destruct (tracked s c) eqn:Htr.
  - destruct Hok as (_ & Hs & Hc). apply tracked_true in Htr as Hin.
    destruct (Hc c Hin) as [sk Hsk].
    set (k1 := on_error (ready_of s) (Ctx (sk_closure sk) (table s) (log s))).
    assert (vars k1 = fresh_session) as Hv.
    { unfold k1, on_error. apply handleLeave_session_ok. simpl. by eapply Hs. }
    assert (run_handler c (λ rs _, on_error rs) s =
            Server (rooms k1)
                   (<[c := Socket (sk_readyState sk) (sk_isAlive sk) (vars k1)]>
                      (sockets s))
                   (clients s) (wire k1)) as ->.
    { unfold run_handler. by rewrite Hsk. }
    assert (∀ t so l, tracked (Server t so (clients s) l) c = true) as Htr'
      by (intros; by apply tracked_true).
    rewrite !Htr'.
    unfold run_handler. simpl. rewrite lookup_alter_eq, lookup_insert_eq. simpl.
    rewrite Hv. unfold on_close. rewrite handleLeave_fresh. simpl.
    split; [done|]. split; [done|]. intros _. split.
    + unfold closure_of. simpl. by rewrite lookup_insert_eq.
    + intros [? _]%list_elem_of_filter. done.
  - rewrite Htr. split; [done|]. split; [done|].
    intros Hin%tracked_true. congruence.
Qed.

(** ** Concrete runs of the further properties *)

Lemma broadcast_reaches_open_others_witness :
  let rs := λ w, if w =? 1 then CLOSING else OPEN in
  let ps := [("alice", 0); ("bob", 1); ("carol", 0)] in
  let k := Ctx fresh_session (<["room1" := ps]> ∅) [] in
  let k' := broadcastToRoom rs "room1" (MPeerLeft "zed") None k in
  vars k' = vars k ∧ rooms k' = rooms k ∧
  wire k' = wire k ++ [Send 0 (MPeerLeft "zed"); Send 0 (MPeerLeft "zed")].
Proof.
  intros rs ps k k'.
  apply (broadcast_reaches_open_others rs "room1" (MPeerLeft "zed") None ps k).
  reflexivity.
Defined.

Lemma invalid_join_changes_nothing_witness :
  let k := Ctx (Session (Some "room1") (Some "alice") true)
               (<["room1" := [("alice", 0)]]> ∅) [] in
  let m := Message (Some "join") (Some "room2") (Some "") None None None None in
  let k' := on_message (λ _, OPEN) 0 (Some m) k in
  vars k' = vars k ∧ rooms k' = rooms k ∧
  wire k' = wire k ++ [Send 0 (MError "Room name and ID are required")].
Proof.
  intros k m k'. apply (invalid_join_changes_nothing (λ _, OPEN) 0 m k).
  - reflexivity.
  - right; right; right. reflexivity.
Defined.



Lemma reconnect_into_pair_notifies_again_witness :
  let ps := [("alice", 0); ("bob", 1)] in
  let k := Ctx fresh_session (<["room1" := ps]> ∅) [] in
  let k' := handleJoin (λ _, OPEN) 7 (join "room1" "alice") k in
  rooms k' !! "room1" = Some (pm_set "alice" 7 ps) ∧
  pm_get "bob" (pm_set "alice" 7 ps) = Some 1 ∧
  wire k' =
    wire (after_cleanup (λ _, OPEN) "room1" k) ++
    [Send 7 (MJoined "room1" "alice" 2)] ++
    (if is_open (λ _, OPEN) 1 then [Send 1 (MPeerJoined "alice" true)] else []) ++
    [Send 7 (MPeerJoined "bob" false)].
Proof.
  intros ps k k'.
  apply (reconnect_into_pair_notifies_again (λ _, OPEN) 7
           (join "room1" "alice") "room1" "alice" "bob" 0 1 ps k);
    try reflexivity; try discriminate.
  left. reflexivity.
Defined.


Lemma other_rooms_untouched_witness :
  let k := Ctx (Session (Some "room1") (Some "alice") true)
               (<["room1" := [("alice", 0)]]> (<["room3" := [("carol", 2)]]> ∅))
               [] in
  rooms (on_message (λ _, OPEN) 0 (Some (join "room2" "alice")) k) !! "room3" =
  rooms k !! "room3".
Proof.
  intros k.
  apply (other_rooms_untouched (λ _, OPEN) 0 (Some (join "room2" "alice")) k).
  - discriminate.
  - intros m [= <-]. discriminate.
Defined.


Lemma switch_is_leave_then_join_witness :
  let k := Ctx (Session (Some "room1") (Some "alice") true)
               (<["room1" := [("alice", 0); ("bob", 1)]]> ∅) [] in
  handleJoin (λ _, OPEN) 0 (join "room2" "alice") k =
  handleJoin (λ _, OPEN) 0 (join "room2" "alice") (handleLeave (λ _, OPEN) k).
Proof.
  intros k.
  apply (switch_is_leave_then_join (λ _, OPEN) 0 (join "room2" "alice")
           "room2" "alice" "room1" k); try reflexivity; try discriminate.
  right. exists "room1", "alice". split; [discriminate|].
  split; [discriminate | reflexivity].
Defined.


Lemma closed_connection_is_cleared_witness :
  let s := run init_server (paired ++ [Closed 0]) in
  ∃ sk, sockets s !! 0 = Some sk ∧
        sk_readyState sk = CLOSED ∧ sk_closure sk = fresh_session.
Proof.
  intros s. exists (Socket CLOSED true fresh_session).
  split; [reflexivity|].
  apply (closed_connection_is_cleared (paired ++ [Closed 0]) 0).
  - reflexivity.
  - vm_compute. intros H. inversion H as [|? ? ? H']. inversion H'.
Defined.

Lemma pong_saves_connection_witness :
  let s := run init_server (paired ++ [Tick]) in
  let evs := [Incoming 1 (Some (offer (sdp "offer" "v=0") None)); Closing 1] in
  let s1 := run (step s (Pong 0)) evs in
  let s2 := step s1 Tick in
  (∃ l, log s2 = log s1 ++ l ∧ Ping 0 ∈ l ∧ (Terminate 0 ∉ l)) ∧
  ready_of s2 0 = ready_of s1 0.
Proof.
  intros s evs s1 s2.
  apply (pong_saves_connection 0 (paired ++ [Tick]) evs).
  - left.
  - repeat constructor; discriminate.
Defined.

Lemma heartbeat_only_probes_witness :
  let s := run init_server (paired ++ [Tick; Pong 1]) in
  let s' := step s Tick in
  table s' = table s ∧ clients s' = clients s ∧
  (∀ c, closure_of s' c = closure_of s c) ∧
  log s' = log s ++ [Terminate 0; Ping 1].
Proof.
  intros s s'. apply (heartbeat_only_probes s).
  - apply (run_ok _ init_server init_server_ok).
  - apply run_clients_nodup.
Defined.

Lemma close_after_error_is_silent_witness :
  let s := run init_server paired in
  let s1 := step s (Failed 0) in
  let s2 := step s1 (Closed 0) in
  table s2 = table s1 ∧ log s2 = log s1 ∧
  (0 ∈ clients s → closure_of s1 0 = fresh_session ∧ (0 ∉ clients s2)).
Proof.
  intros s s1 s2. apply (close_after_error_is_silent s 0).
  apply (run_ok paired init_server init_server_ok).
Defined.
